(** * Ovda: emissivity plots of Magellan data

    A shallow embedding of the data path of the two scripts

      - [emissivity_vs_elevation.py]   (Pipeline A: load, scatter plot)
      - [polEmissivity_vs_latitude.py] (Pipeline B: load H and V, sort,
        bin by incidence angle, per-bin mean and standard deviation)

    Numbers.  The columns are float64 in pandas.  Here a column value is an
    exact rational ([Q]) and "not a number" is [None]: comparisons are the
    same in both worlds, arithmetic is exact here.  The one irrational
    operation, the square root that ends [std], is taken in the reals.
    So [Np.arange], [Pd.mean] and [Pd.std] give the values that numpy and
    pandas approximate: an edge or an aggregate of a real run can differ
    from the one here by rounding, and [np.arange] can raise in a real run
    where [Np.arange] returns.  What is stated about values that are only
    compared, sorted, selected or grouped holds as it stands; module [Stage]
    runs the stage over any implementation of the computing places, for
    statements that must not depend on how they round.

    Library calls ([fiona.listlayers], [geopandas.read_file],
    [DataFrame.sort_values], [Series.min]/[max], [numpy.arange], [pandas.cut],
    [groupby(...).transform]) are modelled by what they compute on these
    values; a call that raises returns [Raise]. *)

From Stdlib Require Import String List Bool Arith ZArith Lia.
From Stdlib Require Import QArith Qround QNsatz.
From Stdlib Require Import Permutation Sorted.
From Stdlib Require Import Reals Qreals Psatz.
Import ListNotations.

Local Open Scope Q_scope.

(* ------------------------------------------------------------------ *)
(** ** Python exceptions as an error monad *)

Module Py.

(** The exceptions the modelled calls can raise. *)
Inductive exn : Type :=
| IndexError   (* [xs[0]] on an empty list *)
| LayerError   (* [read_file]: no such file, or no layer of that name *)
| ValueError.  (* [arange]: cannot compute a length; [cut]: bad edges *)

Inductive result (A : Type) : Type :=
| Ok (a : A)
| Raise (e : exn).
Arguments Ok {A} a.
Arguments Raise {A} e.

Definition bind {A B : Type} (m : result A) (k : A -> result B) : result B :=
  match m with
  | Ok a => k a
  | Raise e => Raise e
  end.

End Py.
Import Py.

Notation "x <- m ;; k" := (Py.bind m (fun x => k))
  (at level 61, m at next level, right associativity).

(* ------------------------------------------------------------------ *)
(** ** Observation tables *)

(** One attribute row, restricted to the three columns Pipeline B reads
    (the fields named by [-latField], [-incField] and [-emisField]); the
    other columns of the layer are carried along and never read. *)
Record row : Type := mkRow {
  lat  : Q;   (* RAD_FOOTPRINT_LATITUDE *)
  inc  : Q;   (* INCIDENCE_ANGLE *)
  emis : Q    (* SURFACE_EMISSIVITY *)
}.

Definition table : Type := list row.

(* ------------------------------------------------------------------ *)
(** ** The data loader: [fiona.listlayers] and [geopandas.read_file] *)

Module Loader.

(** A GeoPackage: its vector layers, by name, in file order. *)
Definition gpkg : Type := list (string * table).

(** The files reachable by path. *)
Definition filesystem : Type := list (string * gpkg).

Fixpoint assoc {V : Type} (k : string) (kvs : list (string * V)) : option V :=
  match kvs with
  | [] => None
  | (k', v) :: rest => if String.eqb k k' then Some v else assoc k rest
  end.

(** [fiona.listlayers(path)]: the layer names of the file.  For a file
    that holds no layer the list is empty here, and the failure comes from
    [[0]] right after; with some formats (GeoPackage) fiona itself raises
    on such a file.  Either way the statement that calls it raises. *)
Definition listlayers (fs : filesystem) (path : string) : result (list string) :=
  match assoc path fs with
  | Some g => Ok (map fst g)
  | None => Raise LayerError
  end.

(** Python's [xs[0]]. *)
Definition item0 {A : Type} (xs : list A) : result A :=
  match xs with
  | x :: _ => Ok x
  | [] => Raise IndexError
  end.

(** [gpd.read_file(path, layer = name)]: the rows of the layer of that
    name in that file.  Names are compared exactly; GDAL falls back on a
    comparison that ignores case when no layer has the exact name, so a
    lookup that fails here can succeed in a run when a name differs from
    [name] by case only. *)
Definition read_file (fs : filesystem) (path layer : string) : result table :=
  match assoc path fs with
  | Some g =>
      match assoc layer g with
      | Some t => Ok t
      | None => Raise LayerError
      end
  | None => Raise LayerError
  end.

(** Pipeline A, [emissivity_vs_elevation.py] lines 81-82:
<<
    layer = fiona.listlayers(args.file)[0]
    data = gpd.read_file(args.file, layer = layer)
>> *)
Definition load_A (fs : filesystem) (file : string) : result table :=
  names <- listlayers fs file ;;
  layer <- item0 names ;;
  read_file fs file layer.

(** Pipeline B, [polEmissivity_vs_latitude.py] lines 87-90:
<<
    Hlayer = fiona.listlayers(args.Hfile)[0]
    Vlayer = fiona.listlayers(args.Vfile)[0]
    ovda_v = gpd.read_file(args.Vfile, layer = Vlayer)
    ovda_h = gpd.read_file(args.Hfile, layer = Vlayer)
>>
    The H file is read with [Vlayer]; [Hlayer] is computed and not used. *)
Definition load_B (fs : filesystem) (Hfile Vfile : string)
  : result (table * table) :=
  Hnames <- listlayers fs Hfile ;;
  Hlayer <- item0 Hnames ;;
  Vnames <- listlayers fs Vfile ;;
  Vlayer <- item0 Vnames ;;
  ovda_v <- read_file fs Vfile Vlayer ;;
  ovda_h <- read_file fs Hfile Vlayer ;;
  Ok (ovda_h, ovda_v).

(** The rows of the first vector layer of a file, as the loader's contract
    words it. *)
Definition first_layer (fs : filesystem) (path : string) : option table :=
  match assoc path fs with
  | Some ((_, t) :: _) => Some t
  | _ => None
  end.

End Loader.

(* ------------------------------------------------------------------ *)
(** ** Numbers with "not a number" *)

Module Num.

(** [a < b] on column values. *)
Definition Qlt_bool (a b : Q) : bool := negb (Qle_bool b a).

(** [x + c] where [x] may be NaN. *)
Definition nan_add (x : option Q) (c : Q) : option Q :=
  match x with
  | Some a => Some (a + c)
  | None => None
  end.

(** [x >= m] and [x <= m] where [m] may be NaN: a comparison with NaN is
    false. *)
Definition ge_nan (x : Q) (m : option Q) : bool :=
  match m with
  | Some b => Qle_bool b x
  | None => false
  end.

Definition le_nan (x : Q) (m : option Q) : bool :=
  match m with
  | Some b => Qle_bool x b
  | None => false
  end.

(** The count [n] of a group as a number. *)
Definition of_nat (n : nat) : Q := inject_Z (Z.of_nat n).

(** The square root that ends [std]: real, of a rational. *)
Definition Qsqrt (v : Q) : R := sqrt (Q2R v).

End Num.
Import Num.

(* ------------------------------------------------------------------ *)
(** ** numpy *)

Module Np.

(** The length [arange] gives its result: [ceil((stop - start) / step)],
    zero when that is negative. *)
Definition arange_length (start stop step : Q) : nat :=
  Z.to_nat (Qceiling ((stop - start) / step)).

(** [np.arange(start, stop, step)] on floats: the values [start + i * step]
    for [i] below the length.  When [start] or [stop] is NaN no length can be
    computed and the call raises ValueError; a zero step raises as well.
    Length and values are the exact ones: numpy rounds the quotient, the sum
    [max_thi+0.05] and every edge, so that a last edge can fall on the other
    side of a value close to it, two edges can coincide, and a length too
    large for an array makes the call raise. *)
Definition arange (start stop : option Q) (step : Q) : result (list Q) :=
  match start, stop with
  | Some a, Some b =>
      if Qeq_bool step 0 then Raise ValueError
      else Ok (map (fun i => a + of_nat i * step)
                   (seq 0 (arange_length a b step)))
  | _, _ => Raise ValueError
  end.

End Np.

(* ------------------------------------------------------------------ *)
(** ** pandas *)

Module Pd.

(** *** [DataFrame.sort_values(latField)] *)

Fixpoint insert_by_lat (r : row) (t : table) : table :=
  match t with
  | [] => [r]
  | r' :: t' =>
      if Qle_bool (lat r) (lat r') then r :: t else r' :: insert_by_lat r t'
  end.

(** Ascending by latitude; rows of equal latitude keep their order (the
    default sort of pandas does not promise an order among them). *)
Definition sort_values (t : table) : table := fold_right insert_by_lat [] t.

(** *** [Series.min()] and [Series.max()]: NaN on an empty column *)

Definition series_min (xs : list Q) : option Q :=
  match xs with
  | [] => None
  | x :: rest => Some (fold_left (fun m y => if Qle_bool m y then m else y) rest x)
  end.

Definition series_max (xs : list Q) : option Q :=
  match xs with
  | [] => None
  | x :: rest => Some (fold_left (fun m y => if Qle_bool y m then m else y) rest x)
  end.

(** *** [pd.cut(x, bins, right=True)] *)

(** A category of the result: the interval [(ileft, iright]]. *)
Record interval : Type := mkInterval { ileft : Q; iright : Q }.

(** The categories of [cut]: one interval per pair of consecutive edges. *)
Fixpoint categories (bins : list Q) : list interval :=
  match bins with
  | a :: ((b :: _) as rest) => mkInterval a b :: categories rest
  | _ => []
  end.

(** [x] lies in [(ileft, iright]]. *)
Definition contains (i : interval) (x : Q) : Prop := ileft i < x /\ x <= iright i.

(** [bins.searchsorted(x, side="left")] on increasing [bins]: the first
    index whose edge is not below [x], that is the number of edges below
    [x]. *)
Fixpoint searchsorted_left (bins : list Q) (x : Q) : nat :=
  match bins with
  | [] => 0%nat
  | b :: rest => if Qlt_bool b x then S (searchsorted_left rest x) else 0%nat
  end.

(** The category code of one value: [ids - 1], and NaN (no category) where
    [ids] is [0] or [len(bins)].  [include_lowest] is left at its default
    (False), so a value equal to the first edge has [ids = 0]. *)
Definition code_of (bins : list Q) (x : Q) : option nat :=
  let ids := searchsorted_left bins x in
  if (ids =? 0)%nat || (ids =? length bins)%nat then None
  else Some (ids - 1)%nat.

Fixpoint is_monotonic_increasing (bins : list Q) : bool :=
  match bins with
  | a :: ((b :: _) as rest) => Qle_bool a b && is_monotonic_increasing rest
  | _ => true
  end.

(** No two edges are equal. *)
Fixpoint is_unique (bins : list Q) : bool :=
  match bins with
  | [] => true
  | a :: rest => negb (existsb (Qeq_bool a) rest) && is_unique rest
  end.

(** [cut] refuses edges that decrease ("bins must increase monotonically")
    and, unless there are exactly two, edges that repeat ("Bin edges must be
    unique"); otherwise it returns one code per value. *)
Definition cut (xs : list Q) (bins : list Q) : result (list (option nat)) :=
  if negb (is_monotonic_increasing bins) then Raise ValueError
  else if negb (is_unique bins) && negb (length bins =? 2)%nat then Raise ValueError
  else Ok (map (code_of bins) xs).

(** *** [groupby("BIN")[col].transform(agg)] *)

Definition same_code (a b : option nat) : bool :=
  match a, b with
  | Some i, Some j => (i =? j)%nat
  | _, _ => false
  end.

(** The values of the column in the rows whose code is [c], in row order.
    Rows without a code belong to no group. *)
Definition group (codes : list (option nat)) (vals : list Q) (c : nat) : list Q :=
  map snd (filter (fun p => same_code (fst p) (Some c)) (combine codes vals)).

(** Every row receives the aggregate of its own group; a row without a code
    receives NaN. *)
Definition transform {A : Type} (agg : list Q -> option A)
    (codes : list (option nat)) (vals : list Q) : list (option A) :=
  map (fun oc => match oc with
                 | Some c => agg (group codes vals c)
                 | None => None
                 end) codes.

(** *** The aggregates *)

Definition Qsum (xs : list Q) : Q := fold_left Qplus xs 0.

(** ["mean"]: sum over count; NaN for no observation.  The exact quotient:
    the float64 mean of pandas is this value up to rounding. *)
Definition mean (xs : list Q) : option Q :=
  match xs with
  | [] => None
  | _ => Some (Qsum xs / of_nat (length xs))
  end.

(** ["std"] goes through the grouped variance, which pandas computes in one
    pass over the rows (Welford's update): per group a count, a running
    mean and a running sum of squared deviations.  The update is exact here
    and rounded at every step in pandas. *)
Record var_state : Type := mkVar { nobs : nat; run_mean : Q; run_m2 : Q }.

Definition var_init : var_state := mkVar 0 0 0.

Definition var_step (s : var_state) (val : Q) : var_state :=
  let n := S (nobs s) in
  let oldmean := run_mean s in
  let newmean := oldmean + (val - oldmean) / of_nat n in
  mkVar n newmean (run_m2 s + (val - newmean) * (val - oldmean)).

(** The variance with [ddof] degrees of freedom removed: NaN when the count
    is at most [ddof], else the sum of squared deviations over
    [count - ddof]. *)
Definition group_var (ddof : nat) (xs : list Q) : option Q :=
  let s := fold_left var_step xs var_init in
  if (nobs s <=? ddof)%nat then None
  else Some (run_m2 s / of_nat (nobs s - ddof)).

(** ["std"]: the square root of the variance, with pandas' default
    [ddof = 1]. *)
Definition std (xs : list Q) : option R :=
  option_map Qsqrt (group_var 1 xs).

End Pd.

(* ------------------------------------------------------------------ *)
(** ** Pipeline B: [polEmissivity_vs_latitude.py], [main] *)

Module PipelineB.
Import Np Pd.

(** A data frame after the binning step: the rows and, aligned with them by
    position, the five columns that lines 104-108 (and 110-114) add. *)
Record frame : Type := mkFrame {
  rows : table;
  BIN : list (option nat);
  MEAN_SURFACE_EMISSIVITY : list (option Q);
  STD_SURFACE_EMISSIVITY : list (option R);
  MEAN_INCIDENCE_ANGLE : list (option Q);
  MEAN_RAD_FOOTPRINT_LATITUDE : list (option Q)
}.

(** Lines 104-108, and the same five statements on [dfv] at lines 110-114:
<<
    df["BIN"] = pd.cut(df[args.incField], bins, right=True)
    df["MEAN_SURFACE_EMISSIVITY"] = df.groupby("BIN")[args.emisField].transform("mean")
    df["STD_SURFACE_EMISSIVITY"] = df.groupby("BIN")[args.emisField].transform("std")
    df["MEAN_INCIDENCE_ANGLE"] = df.groupby("BIN")[args.incField].transform("mean")
    df["MEAN_RAD_FOOTPRINT_LATITUDE"] = df.groupby("BIN")[args.latField].transform("mean")
>> *)
Definition add_bin_columns (df : table) (bins : list Q) : result frame :=
  codes <- cut (map inc df) bins ;;
  Ok {| rows := df;
        BIN := codes;
        MEAN_SURFACE_EMISSIVITY := transform mean codes (map emis df);
        STD_SURFACE_EMISSIVITY := transform std codes (map emis df);
        MEAN_INCIDENCE_ANGLE := transform mean codes (map inc df);
        MEAN_RAD_FOOTPRINT_LATITUDE := transform mean codes (map lat df) |}.

(** What the plot is drawn from. *)
Record binned : Type := mkBinned {
  bins : list Q;
  dfh : frame;
  dfv : frame
}.

(** The overshoot added to the maximum at line 99. *)
Definition overshoot : Q := 5 # 100.

(** Lines 93-114: sort, edges, filter, bin and aggregate.
<<
    dfh = pd.DataFrame(data = ovda_h).sort_values(args.latField)
    dfv = pd.DataFrame(data = ovda_v).sort_values(args.latField)
    min_thi = dfh[args.incField].min()
    max_thi = dfh[args.incField].max()
    bins = np.arange(min_thi, max_thi+0.05, args.binSize)
    dfv = dfv[(dfv[args.incField] >= min_thi) & (dfv[args.incField] <= max_thi)]
>> *)
Definition bin_and_aggregate (binSize : Q) (ovda_h ovda_v : table)
  : result binned :=
  let dfh := sort_values ovda_h in
  let dfv := sort_values ovda_v in
  let min_thi := series_min (map inc dfh) in
  let max_thi := series_max (map inc dfh) in
  bins <- arange min_thi (nan_add max_thi overshoot) binSize ;;
  let dfv := filter (fun r => ge_nan (inc r) min_thi && le_nan (inc r) max_thi) dfv in
  fh <- add_bin_columns dfh bins ;;
  fv <- add_bin_columns dfv bins ;;
  Ok {| bins := bins; dfh := fh; dfv := fv |}.

(** [main] up to the plot: load both files, then bin and aggregate. *)
Definition main (fs : Loader.filesystem) (Hfile Vfile : string) (binSize : Q)
  : result binned :=
  tables <- Loader.load_B fs Hfile Vfile ;;
  bin_and_aggregate binSize (fst tables) (snd tables).

(** The rows of a frame that carry code [c], and their emissivities. *)
Definition rows_in_bin (f : frame) (c : nat) : table :=
  map snd (filter (fun p => same_code (fst p) (Some c)) (combine (BIN f) (rows f))).

Definition emis_in_bin (f : frame) (c : nat) : list Q :=
  group (BIN f) (map emis (rows f)) c.

End PipelineB.

(* ------------------------------------------------------------------ *)
(** ** The statistics as the specification words them *)

Module Stat.
Import Pd.

(** The sum of the squared deviations of [xs] from [m]. *)
Definition sum_sq_dev (xs : list Q) (m : Q) : Q :=
  Qsum (map (fun x => (x - m) * (x - m)) xs).

Definition arith_mean (xs : list Q) : Q := Qsum xs / of_nat (length xs).

(** Population variance and standard deviation: divisor [n]. *)
Definition population_var (xs : list Q) : Q :=
  sum_sq_dev xs (arith_mean xs) / of_nat (length xs).

Definition population_std (xs : list Q) : option R :=
  match xs with
  | [] => None
  | _ => Some (Qsqrt (population_var xs))
  end.

(** Sample variance and standard deviation: divisor [n - 1]. *)
Definition sample_var (xs : list Q) : Q :=
  sum_sq_dev xs (arith_mean xs) / of_nat (length xs - 1).

Definition sample_std (xs : list Q) : option R :=
  if (length xs <=? 1)%nat then None else Some (Qsqrt (sample_var xs)).

End Stat.

(* ------------------------------------------------------------------ *)
(** ** Order on the edges *)

(** Strictly increasing: every edge is below all later ones. *)
Definition strictly_increasing (xs : list Q) : Prop := StronglySorted Qlt xs.

(** [m] is the least (greatest) value of the column. *)
Definition is_min_of (m : Q) (xs : list Q) : Prop :=
  In m xs /\ forall x, In x xs -> m <= x.

Definition is_max_of (m : Q) (xs : list Q) : Prop :=
  In m xs /\ forall x, In x xs -> x <= m.

(* ------------------------------------------------------------------ *)
(** ** Reading the result of the stage *)

(** The five added columns of [f] are those of lines 104-108 computed from
    the rows of [f] and the edges [edges]. *)
Definition binned_by (edges : list Q) (f : PipelineB.frame) : Prop :=
  PipelineB.BIN f = map (Pd.code_of edges) (map inc (PipelineB.rows f)) /\
  PipelineB.MEAN_SURFACE_EMISSIVITY f
    = Pd.transform Pd.mean (PipelineB.BIN f) (map emis (PipelineB.rows f)) /\
  PipelineB.STD_SURFACE_EMISSIVITY f
    = Pd.transform Pd.std (PipelineB.BIN f) (map emis (PipelineB.rows f)) /\
  PipelineB.MEAN_INCIDENCE_ANGLE f
    = Pd.transform Pd.mean (PipelineB.BIN f) (map inc (PipelineB.rows f)) /\
  PipelineB.MEAN_RAD_FOOTPRINT_LATITUDE f
    = Pd.transform Pd.mean (PipelineB.BIN f) (map lat (PipelineB.rows f)).

(** The aggregates of a table are all NaN. *)
Definition all_nan (f : PipelineB.frame) : Prop :=
  (forall x, In x (PipelineB.MEAN_SURFACE_EMISSIVITY f) -> x = None) /\
  (forall x, In x (PipelineB.STD_SURFACE_EMISSIVITY f) -> x = None) /\
  (forall x, In x (PipelineB.MEAN_INCIDENCE_ANGLE f) -> x = None) /\
  (forall x, In x (PipelineB.MEAN_RAD_FOOTPRINT_LATITUDE f) -> x = None).

(** [f] is one of the two tables of the result. *)
Definition table_of (out : PipelineB.binned) (f : PipelineB.frame) : Prop :=
  f = PipelineB.dfh out \/ f = PipelineB.dfv out.

(** The range test of line 100 for a known minimum and maximum. *)
Definition in_range (lo hi : Q) (r : row) : bool :=
  Qle_bool lo (inc r) && Qle_bool (inc r) hi.

(** [m] is the mean of the column [xs]. *)
Definition mean_is (xs : list Q) (m : Q) : Prop :=
  exists m', Pd.mean xs = Some m' /\ m' == m.

(** The outcome that the scenario of the specification describes, for the H
    table [f] binned by [edges], [r1] and [r2] being the first two rows: a
    bin of upper edge 20 that holds the first two rows, with mean emissivity
    0.55; a bin of upper edge 30 that holds one row, with mean 0.8; a
    further bin that holds one row, with mean 0.9. *)
Definition scenario_as_specified (r1 r2 : row) (edges : list Q)
    (f : PipelineB.frame) : Prop :=
  exists c20 c30 c40 i20 i30,
    nth_error (Pd.categories edges) c20 = Some i20 /\ Pd.iright i20 == 20 /\
    PipelineB.rows_in_bin f c20 = [r1; r2] /\
    mean_is (PipelineB.emis_in_bin f c20) (55 # 100) /\
    nth_error (Pd.categories edges) c30 = Some i30 /\ Pd.iright i30 == 30 /\
    length (PipelineB.rows_in_bin f c30) = 1%nat /\
    mean_is (PipelineB.emis_in_bin f c30) (8 # 10) /\
    c40 <> c20 /\ c40 <> c30 /\
    length (PipelineB.rows_in_bin f c40) = 1%nat /\
    mean_is (PipelineB.emis_in_bin f c40) (9 # 10).

(** The edges reach the greatest value of the column: the last edge is not
    below it. *)
Definition covers_max (edges : list Q) (xs : list Q) : Prop :=
  exists hi last,
    is_max_of hi xs /\
    nth_error edges (length edges - 1) = Some last /\
    hi <= last.

(** Every row of the table carries a bin code. *)
Definition every_row_binned (f : PipelineB.frame) : Prop :=
  forall i r, nth_error (PipelineB.rows f) i = Some r ->
    exists c, nth_error (PipelineB.BIN f) i = Some (Some c).

(* ------------------------------------------------------------------ *)
(** ** Concrete tables *)

Module Examples.
Import PipelineB.

(** The scenario of the specification: incidence angles 10, 10, 20, 30 with
    emissivities 0.5, 0.6, 0.8, 0.9, here in latitude order; bin width 10. *)
Definition scenario_h : table :=
  [ mkRow 1 10 (5 # 10); mkRow 2 10 (6 # 10);
    mkRow 3 20 (8 # 10); mkRow 4 30 (9 # 10) ].

(** A V table with incidence angles 5, 20, 35 and 30 (latitudes 1, 2, 3, 0). *)
Definition scenario_v : table :=
  [ mkRow 1 5 (4 # 10); mkRow 2 20 (5 # 10);
    mkRow 3 35 (6 # 10); mkRow 0 30 (7 # 10) ].

(** What lines 93-114 compute from them. *)
Definition scenario_out : binned :=
  {| bins := [10; 20; 30];
     dfh := {| rows := scenario_h;
               BIN := [None; None; Some 0%nat; Some 1%nat];
               MEAN_SURFACE_EMISSIVITY := [None; None; Some (8 # 10); Some (9 # 10)];
               STD_SURFACE_EMISSIVITY := [None; None; None; None];
               MEAN_INCIDENCE_ANGLE := [None; None; Some 20; Some 30];
               MEAN_RAD_FOOTPRINT_LATITUDE := [None; None; Some 3; Some 4] |};
     dfv := {| rows := [mkRow 0 30 (7 # 10); mkRow 2 20 (5 # 10)];
               BIN := [Some 1%nat; Some 0%nat];
               MEAN_SURFACE_EMISSIVITY := [Some (7 # 10); Some (5 # 10)];
               STD_SURFACE_EMISSIVITY := [None; None];
               MEAN_INCIDENCE_ANGLE := [Some 30; Some 20];
               MEAN_RAD_FOOTPRINT_LATITUDE := [Some 0; Some 2] |} |}.

(** An H table whose range (0 to 0.12) is not a multiple of the bin width
    0.1. *)
Definition ragged_h : table := [ mkRow 1 0 (5 # 10); mkRow 2 (12 # 100) (7 # 10) ].

(** An H table with two rows (emissivities 0.5 and 0.7) in the one bin
    (10, 20]: their mean is 0.6, the sum of their squared deviations 0.02. *)
Definition pair_h : table :=
  [ mkRow 1 10 (3 # 10); mkRow 2 15 (5 # 10); mkRow 3 20 (7 # 10) ].

Definition pair_out : binned :=
  {| bins := [10; 20];
     dfh := {| rows := pair_h;
               BIN := [None; Some 0%nat; Some 0%nat];
               MEAN_SURFACE_EMISSIVITY := [None; Some (120 # 200); Some (120 # 200)];
               STD_SURFACE_EMISSIVITY :=
                 [None; Some (Qsqrt (40000000 # 2000000000));
                  Some (Qsqrt (40000000 # 2000000000))];
               MEAN_INCIDENCE_ANGLE := [None; Some (35 # 2); Some (35 # 2)];
               MEAN_RAD_FOOTPRINT_LATITUDE := [None; Some (5 # 2); Some (5 # 2)] |};
     dfv := {| rows := []; BIN := [];
               MEAN_SURFACE_EMISSIVITY := []; STD_SURFACE_EMISSIVITY := [];
               MEAN_INCIDENCE_ANGLE := []; MEAN_RAD_FOOTPRINT_LATITUDE := [] |} |}.

(** Two files as the script receives them: the H file holds two layers,
    the V file one, named like the second layer of the H file. *)
Definition h_first : table := [ mkRow 1 10 (5 # 10) ].
Definition h_second : table := [ mkRow 2 20 (6 # 10) ].
Definition v_first : table := [ mkRow 3 15 (7 # 10) ].

Definition two_layer_fs : Loader.filesystem :=
  [ ("h.gpkg"%string, [ ("emis_h"%string, h_first); ("emis_v"%string, h_second) ]);
    ("v.gpkg"%string, [ ("emis_v"%string, v_first) ]) ].

(** Two files of one layer each, each layer named after its polarization. *)
Definition one_layer_fs : Loader.filesystem :=
  [ ("h.gpkg"%string, [ ("emis_h"%string, h_first) ]);
    ("v.gpkg"%string, [ ("emis_v"%string, v_first) ]) ].

End Examples.

(* ------------------------------------------------------------------ *)
(** ** Further notions about the tables of a run *)

(** The rows are in ascending order of latitude. *)
Definition sorted_by_lat (t : table) : Prop :=
  StronglySorted (fun a b => lat a <= lat b) t.

(* ------------------------------------------------------------------ *)
(** ** Further concrete tables *)

Module MoreExamples.
Import PipelineB.

(** The H table of the scenario with a V table that has a row at the H
    minimum 10. *)
Definition edge_v : table := [ mkRow 1 10 (4 # 10); mkRow 2 25 (5 # 10) ].

Definition edge_out : binned :=
  {| bins := [10; 20; 30];
     dfh := dfh Examples.scenario_out;
     dfv := {| rows := edge_v;
               BIN := [None; Some 1%nat];
               MEAN_SURFACE_EMISSIVITY := [None; Some (5 # 10)];
               STD_SURFACE_EMISSIVITY := [None; None];
               MEAN_INCIDENCE_ANGLE := [None; Some 25];
               MEAN_RAD_FOOTPRINT_LATITUDE := [None; Some 2] |} |}.

(** The H and V tables of the scenario with their rows in another order. *)
Definition scenario_h_reordered : table :=
  [ mkRow 4 30 (9 # 10); mkRow 2 10 (6 # 10);
    mkRow 1 10 (5 # 10); mkRow 3 20 (8 # 10) ].

Definition scenario_v_reordered : table :=
  [ mkRow 0 30 (7 # 10); mkRow 3 35 (6 # 10);
    mkRow 2 20 (5 # 10); mkRow 1 5 (4 # 10) ].

End MoreExamples.

(* ------------------------------------------------------------------ *)
(** ** What [main] hands to the drawing calls (lines 129-136) *)

Module Plot.
Import PipelineB.

(** [a - b] and [a + b] on two columns of one table, row by row; NaN in
    either operand gives NaN.  The left operand is a mean, the right one a
    standard deviation. *)
Definition series_op (op : R -> R -> R)
    (a : list (option Q)) (b : list (option R)) : list (option R) :=
  map (fun p => match fst p, snd p with
                | Some x, Some y => Some (op (Q2R x) y)
                | _, _ => None
                end) (combine a b).

Definition series_sub := series_op Rminus.
Definition series_add := series_op Rplus.

(** The three arrays of [ax.fill_between(x, y1, y2)], lines 132-133:
<<
    ax.fill_between(df['MEAN_RAD_FOOTPRINT_LATITUDE'],
                    df['MEAN_SURFACE_EMISSIVITY'] - df['STD_SURFACE_EMISSIVITY'],
                    df['MEAN_SURFACE_EMISSIVITY'] + df['STD_SURFACE_EMISSIVITY'], ...)
>> *)
Record band : Type := mkBand {
  band_x : list (option Q);
  band_lower : list (option R);
  band_upper : list (option R)
}.

Definition fill_between_args (df : frame) : band :=
  {| band_x := MEAN_RAD_FOOTPRINT_LATITUDE df;
     band_lower := series_sub (MEAN_SURFACE_EMISSIVITY df) (STD_SURFACE_EMISSIVITY df);
     band_upper := series_add (MEAN_SURFACE_EMISSIVITY df) (STD_SURFACE_EMISSIVITY df) |}.

(** The points of [df.plot.scatter(args.latField, args.emisField)], lines
    129-130: one per row. *)
Definition raw_points (df : frame) : list (Q * Q) :=
  map (fun r => (lat r, emis r)) (rows df).

(** The points of
    [df.plot.scatter('MEAN_RAD_FOOTPRINT_LATITUDE', 'MEAN_SURFACE_EMISSIVITY')],
    lines 135-136: one per row, NaN where the row has no bin. *)
Definition mean_points (df : frame) : list (option Q * option Q) :=
  combine (MEAN_RAD_FOOTPRINT_LATITUDE df) (MEAN_SURFACE_EMISSIVITY df).

End Plot.

(* ------------------------------------------------------------------ *)
(** ** Further files *)

Module MoreFiles.

(** Two files whose first layers bear the same name. *)
Definition same_name_fs : Loader.filesystem :=
  [ ("h.gpkg"%string, [ ("emissivity"%string, Examples.h_first) ]);
    ("v.gpkg"%string, [ ("emissivity"%string, Examples.v_first) ]) ].

(** An H file without layers beside a sound V file. *)
Definition no_layer_fs : Loader.filesystem :=
  [ ("h.gpkg"%string, []);
    ("v.gpkg"%string, [ ("emis_v"%string, Examples.v_first) ]) ].

End MoreFiles.

(* ------------------------------------------------------------------ *)
(** ** Tables whose rows differ in latitude *)

(** No row occurs twice and no two rows have the same latitude. *)
Definition distinct_latitudes (t : table) : Prop :=
  NoDup t /\ forall r r', In r t -> In r' t -> lat r == lat r' -> r = r'.

(** The rows are in strictly ascending order of latitude. *)
Definition strictly_sorted_by_lat (t : table) : Prop :=
  StronglySorted (fun a b => lat a < lat b) t.

(* ------------------------------------------------------------------ *)
(** ** Tables with named columns *)

(** The stage once more, with the columns looked up by the names that the
    options give, as the script does it.  A table holds its numeric columns
    only (geometry and text are never read unless an option names them), and
    the three field names are taken to differ from the five names of the
    columns that lines 104-108 add. *)
Module Named.
Import PipelineB.

(** The options of [cli()] that the data path reads. *)
Record args : Type := mkArgs {
  emisField : string;   (* -emisField, default SURFACE_EMISSIVITY *)
  latField : string;    (* -latField, default RAD_FOOTPRINT_LATITUDE *)
  incField : string;    (* -incField, default INCIDENCE_ANGLE *)
  binSize : Q           (* -binSize, default 0.1 *)
}.

(** The names of the columns that the stage adds. *)
Definition added_columns : list string :=
  [ "BIN"%string; "MEAN_SURFACE_EMISSIVITY"%string;
    "STD_SURFACE_EMISSIVITY"%string; "MEAN_INCIDENCE_ANGLE"%string;
    "MEAN_RAD_FOOTPRINT_LATITUDE"%string ].

Definition fresh_fields (a : args) : Prop :=
  forall n, In n [emisField a; latField a; incField a] -> ~ In n added_columns.

(** A DataFrame: the column names and, per row, one value per column. *)
Record dataframe : Type := mkDF {
  columns : list string;
  records : list (list Q)
}.

(** What a call gives: a value, a KeyError for a column that is not there,
    or an exception of the stage itself. *)
Inductive outcome (A : Type) : Type :=
| Returned (a : A)
| KeyError (name : string)
| Raised (e : Py.exn).
Arguments Returned {A} a.
Arguments KeyError {A} name.
Arguments Raised {A} e.

Definition bind {A B : Type} (m : outcome A) (k : A -> outcome B) : outcome B :=
  match m with
  | Returned a => k a
  | KeyError n => KeyError n
  | Raised e => Raised e
  end.

Definition lift {A : Type} (r : Py.result A) : outcome A :=
  match r with
  | Py.Ok a => Returned a
  | Py.Raise e => Raised e
  end.

Fixpoint index_of (name : string) (cols : list string) : option nat :=
  match cols with
  | [] => None
  | c :: rest =>
      if String.eqb name c then Some 0%nat else option_map S (index_of name rest)
  end.

(** The value of column [k] in a record. *)
Definition value_at (k : nat) (rec : list Q) : Q := nth k rec 0.

(** [df[name]]. *)
Definition getitem (df : dataframe) (name : string) : outcome (list Q) :=
  match index_of name (columns df) with
  | Some k => Returned (map (value_at k) (records df))
  | None => KeyError name
  end.

Fixpoint insert_by (k : nat) (rec : list Q) (recs : list (list Q))
  : list (list Q) :=
  match recs with
  | [] => [rec]
  | rec' :: rest =>
      if Qle_bool (value_at k rec) (value_at k rec') then rec :: recs
      else rec' :: insert_by k rec rest
  end.

(** [df.sort_values(name)]. *)
Definition sort_values (df : dataframe) (name : string) : outcome dataframe :=
  match index_of name (columns df) with
  | Some k => Returned (mkDF (columns df) (fold_right (insert_by k) [] (records df)))
  | None => KeyError name
  end.

(** [df[mask]] for a boolean mask: the records where the mask is true. *)
Fixpoint mask_select (recs : list (list Q)) (mask : list bool) : list (list Q) :=
  match recs, mask with
  | rec :: recs', b :: mask' =>
      if b then rec :: mask_select recs' mask' else mask_select recs' mask'
  | _, _ => []
  end.

Definition select (df : dataframe) (mask : list bool) : dataframe :=
  mkDF (columns df) (mask_select (records df) mask).

(** The rows of the result, from the three columns read. *)
Fixpoint zip_rows (lats incs emiss : list Q) : table :=
  match lats, incs, emiss with
  | l :: lats', i :: incs', e :: emiss' => mkRow l i e :: zip_rows lats' incs' emiss'
  | _, _, _ => []
  end.

(** Lines 104-108 (and 110-114): the columns are read in the order
    [incField] (line 104), [emisField] (105, 106), [incField] (107),
    [latField] (108). *)
Definition add_bin_columns (a : args) (df : dataframe) (bins : list Q)
  : outcome frame :=
  bind (getitem df (incField a)) (fun inc_col =>
  bind (lift (Pd.cut inc_col bins)) (fun codes =>
  bind (getitem df (emisField a)) (fun emis_col =>
  bind (getitem df (incField a)) (fun inc_col' =>
  bind (getitem df (latField a)) (fun lat_col =>
  Returned {| rows := zip_rows lat_col inc_col emis_col;
              BIN := codes;
              MEAN_SURFACE_EMISSIVITY := Pd.transform Pd.mean codes emis_col;
              STD_SURFACE_EMISSIVITY := Pd.transform Pd.std codes emis_col;
              MEAN_INCIDENCE_ANGLE := Pd.transform Pd.mean codes inc_col';
              MEAN_RAD_FOOTPRINT_LATITUDE := Pd.transform Pd.mean codes lat_col |}))))).

(** Lines 93-114, each column read where the script reads it:
    [sort_values(args.latField)] on both tables (93, 94),
    [dfh[args.incField]] for the minimum and the maximum (97, 98), the
    edges (99), [dfv[args.incField]] twice for the range mask (100), then
    the five added columns of the H table (104-108) and of the V table
    (110-114). *)
Definition bin_and_aggregate (a : args) (ovda_h ovda_v : dataframe)
  : outcome binned :=
  bind (sort_values ovda_h (latField a)) (fun dfh =>
  bind (sort_values ovda_v (latField a)) (fun dfv =>
  bind (getitem dfh (incField a)) (fun inc_h =>
  let min_thi := Pd.series_min inc_h in
  bind (getitem dfh (incField a)) (fun inc_h' =>
  let max_thi := Pd.series_max inc_h' in
  bind (lift (Np.arange min_thi (nan_add max_thi overshoot) (binSize a))) (fun bins =>
  bind (getitem dfv (incField a)) (fun inc_v =>
  bind (getitem dfv (incField a)) (fun inc_v' =>
  let dfv := select dfv (map (fun p => ge_nan (fst p) min_thi && le_nan (snd p) max_thi)
                             (combine inc_v inc_v')) in
  bind (add_bin_columns a dfh bins) (fun fh =>
  bind (add_bin_columns a dfv bins) (fun fv =>
  Returned {| bins := bins; dfh := fh; dfv := fv |}))))))))).

(** The three named columns of a table as rows, when all three are there. *)
Definition project (a : args) (df : dataframe) : option table :=
  match index_of (latField a) (columns df),
        index_of (incField a) (columns df),
        index_of (emisField a) (columns df) with
  | Some kl, Some ki, Some ke =>
      Some (map (fun rec => mkRow (value_at kl rec) (value_at ki rec) (value_at ke rec))
                (records df))
  | _, _, _ => None
  end.

(** Pipeline A, line 91: the two columns handed to [ax.scatter], the
    emissivity field first. *)
Definition scatter_args (emisField prField : string) (data : dataframe)
  : outcome (list Q * list Q) :=
  bind (getitem data emisField) (fun xs =>
  bind (getitem data prField) (fun ys =>
  Returned (xs, ys))).

End Named.

(* ------------------------------------------------------------------ *)
(** ** Concrete tables with named columns *)

(** The table has a column of that name. *)
Definition has_column (df : Named.dataframe) (name : string) : Prop :=
  Named.index_of name (Named.columns df) <> None.

Module NamedExamples.
Import Named.

(** The default field names with the bin width 10 of the scenario. *)
Definition scenario_args : args :=
  {| emisField := "SURFACE_EMISSIVITY";
     latField := "RAD_FOOTPRINT_LATITUDE";
     incField := "INCIDENCE_ANGLE";
     binSize := 10 |}.

(** The H table of the scenario as a layer gives it, with a fourth column
    that the stage does not read. *)
Definition scenario_h_df : dataframe :=
  {| columns := [ "RAD_FOOTPRINT_LATITUDE"%string; "INCIDENCE_ANGLE"%string;
                  "SURFACE_EMISSIVITY"%string; "AVERAGE_PLANETARY_RADIUS"%string ];
     records := [ [1; 10; 5 # 10; 6052]; [2; 10; 6 # 10; 6053];
                  [3; 20; 8 # 10; 6051]; [4; 30; 9 # 10; 6054] ] |}.

(** The same rows with the columns in another order and without the
    fourth. *)
Definition scenario_h_df' : dataframe :=
  {| columns := [ "SURFACE_EMISSIVITY"%string; "INCIDENCE_ANGLE"%string;
                  "RAD_FOOTPRINT_LATITUDE"%string ];
     records := [ [5 # 10; 10; 1]; [6 # 10; 10; 2];
                  [8 # 10; 20; 3]; [9 # 10; 30; 4] ] |}.

(** The V table of the scenario, emissivity first. *)
Definition scenario_v_df : dataframe :=
  {| columns := [ "SURFACE_EMISSIVITY"%string; "RAD_FOOTPRINT_LATITUDE"%string;
                  "INCIDENCE_ANGLE"%string ];
     records := [ [4 # 10; 1; 5]; [5 # 10; 2; 20];
                  [6 # 10; 3; 35]; [7 # 10; 0; 30] ] |}.

(** An H table without rows that has the latitude and incidence-angle
    columns only, and a V table that has the latitude column only. *)
Definition empty_h_df : dataframe :=
  {| columns := [ "RAD_FOOTPRINT_LATITUDE"%string; "INCIDENCE_ANGLE"%string ];
     records := [] |}.

Definition lat_only_v_df : dataframe :=
  {| columns := [ "RAD_FOOTPRINT_LATITUDE"%string ];
     records := [ [1]; [2] ] |}.

End NamedExamples.

(* ------------------------------------------------------------------ *)
(** ** The stage over any arithmetic *)

(** Two places of lines 93-114 compute with numbers: the call
    [np.arange(min_thi, max_thi+0.05, args.binSize)] of line 99 and the
    aggregates of lines 105-108 and 111-114.  Everything else (the sort,
    [min], [max], the range filter, [pd.cut]) only compares column values,
    and comparisons give the same answer on float64 values as on the
    rationals they denote.

    [arithmetic] collects the computing places, so that the stage can be
    run with any implementation of them: [exact] is the rational one of
    [Np.arange], [Pd.mean] and [Pd.std]; numpy's and pandas' float64
    routines, read on finite values, are another, with rounded edges and
    rounded aggregates, and more ways for the call of line 99 to raise. *)

Module Stage.
Import Np Pd PipelineB.

Record arithmetic : Type := mkArithmetic {
  (* [np.arange(min_thi, max_thi+0.05, binSize)], from [min_thi],
     [max_thi] and [binSize] *)
  edges_of : option Q -> option Q -> Q -> result (list Q);
  (* the aggregate ["mean"] of a group *)
  mean_of : list Q -> option Q;
  (* the aggregate ["std"] of a group *)
  std_of : list Q -> option R
}.

Definition exact : arithmetic :=
  {| edges_of := fun min_thi max_thi binSize =>
                   arange min_thi (nan_add max_thi overshoot) binSize;
     mean_of := mean;
     std_of := std |}.

(** Lines 104-108 (and 110-114) with the aggregates of [ar]. *)
Definition add_bin_columns_with (ar : arithmetic) (df : table) (bins : list Q)
  : result frame :=
  codes <- cut (map inc df) bins ;;
  Ok {| rows := df;
        BIN := codes;
        MEAN_SURFACE_EMISSIVITY := transform (mean_of ar) codes (map emis df);
        STD_SURFACE_EMISSIVITY := transform (std_of ar) codes (map emis df);
        MEAN_INCIDENCE_ANGLE := transform (mean_of ar) codes (map inc df);
        MEAN_RAD_FOOTPRINT_LATITUDE := transform (mean_of ar) codes (map lat df) |}.

(** Lines 93-114 with the edges and the aggregates of [ar]. *)
Definition bin_and_aggregate_with (ar : arithmetic) (binSize : Q)
    (ovda_h ovda_v : table) : result binned :=
  let dfh := sort_values ovda_h in
  let dfv := sort_values ovda_v in
  let min_thi := series_min (map inc dfh) in
  let max_thi := series_max (map inc dfh) in
  bins <- edges_of ar min_thi max_thi binSize ;;
  let dfv := filter (fun r => ge_nan (inc r) min_thi && le_nan (inc r) max_thi) dfv in
  fh <- add_bin_columns_with ar dfh bins ;;
  fv <- add_bin_columns_with ar dfv bins ;;
  Ok {| bins := bins; dfh := fh; dfv := fv |}.

(** What [np.arange] does in every arithmetic: the first element of a
    result that is not empty is [start] itself (numpy stores [start] and
    [start + step] and fills the rest from their difference). *)
Definition starts_at_minimum (ar : arithmetic) : Prop :=
  forall (lo : Q) (hi : option Q) (step first : Q) (rest : list Q),
    edges_of ar (Some lo) hi step = Ok (first :: rest) -> first == lo.

End Stage.

(** Non-decreasing: no edge is above a later one. *)
Definition non_decreasing (xs : list Q) : Prop := StronglySorted Qle xs.

(* ------------------------------------------------------------------ *)
(** ** Proof steps *)

(** Permutations of short explicit lists. *)
Ltac perm_step :=
  match goal with
  | |- Permutation [] [] => apply perm_nil
  | |- Permutation (?x :: _) (?x :: _) => apply perm_skip
  | |- Permutation (?x :: _) (?a :: ?x :: ?t) =>
      apply (Permutation_cons_app [a] t x); cbn [app]
  | |- Permutation (?x :: _) (?a :: ?b :: ?x :: ?t) =>
      apply (Permutation_cons_app [a; b] t x); cbn [app]
  | |- Permutation (?x :: _) (?a :: ?b :: ?c :: ?x :: ?t) =>
      apply (Permutation_cons_app [a; b; c] t x); cbn [app]
  end.

(** The comparisons of latitudes that the sort makes. *)
Ltac split_on_latitudes :=
  repeat match goal with
         | |- context [Qle_bool ?a ?b] =>
             is_var a; is_var b; destruct (Qle_bool a b);
             cbn [Pd.insert_by_lat lat]
         end.

(** Distinct latitudes of a short explicit table. *)
Ltac distinct_rows :=
  split;
  [ repeat (constructor; [simpl; intuition discriminate|]); constructor
  | intros r r' Hr Hr' Heq; simpl in Hr, Hr';
    repeat (destruct Hr as [<-|Hr]; [|try contradiction]);
    repeat (destruct Hr' as [<-|Hr']; [|try contradiction]);
    first [reflexivity | discriminate Heq] ].

(** The field names of explicit options differ from the added columns. *)
Ltac fresh_names :=
  let n := fresh "n" in
  let Hn := fresh "Hn" in
  let Ha := fresh "Ha" in
  intros n Hn Ha; simpl in Hn;
  repeat (destruct Hn as [Hn|Hn]; [subst n; simpl in Ha; intuition discriminate|]);
  contradiction.

(* ================================================================== *)
(** * Properties *)

Import Np Pd PipelineB Stage.

(** ** Comparisons *)

Lemma Qlt_bool_iff (a b : Q) : Qlt_bool a b = true <-> a < b.
Proof.
  unfold Qlt_bool. rewrite negb_true_iff. split; intro H.
  - apply Qnot_le_lt. intro L. apply Qle_bool_iff in L. congruence.
  - destruct (Qle_bool b a) eqn:E; [|reflexivity].
    apply Qle_bool_iff in E. exfalso. apply (Qlt_not_le _ _ H E).
Qed.

Lemma Qlt_bool_false (a b : Q) : Qlt_bool a b = false <-> b <= a.
Proof.
  unfold Qlt_bool. rewrite negb_false_iff. apply Qle_bool_iff.
Qed.

Lemma Qle_bool_false (a b : Q) : Qle_bool a b = false -> b < a.
Proof.
  intro H. apply Qnot_le_lt. intro L. apply Qle_bool_iff in L. congruence.
Qed.

(** ** [sort_values] only reorders *)

Lemma insert_by_lat_perm (r : row) (t : table) :
  Permutation (insert_by_lat r t) (r :: t).
Proof.
  induction t as [|r' t IH]; simpl.
  - apply Permutation_refl.
  - destruct (Qle_bool (lat r) (lat r')).
    + apply Permutation_refl.
    + eapply perm_trans; [apply perm_skip, IH | apply perm_swap].
Qed.

Lemma sort_values_perm (t : table) : Permutation (sort_values t) t.
Proof.
  induction t as [|r t IH]; simpl.
  - apply perm_nil.
  - eapply perm_trans; [apply insert_by_lat_perm | apply perm_skip, IH].
Qed.

Lemma filter_perm {A : Type} (p : A -> bool) (l l' : list A) :
  Permutation l l' -> Permutation (filter p l) (filter p l').
Proof.
  induction 1 as [|x l l' P IH|x y l|l l' l'' P1 IH1 P2 IH2]; simpl.
  - apply perm_nil.
  - destruct (p x); [apply perm_skip|]; exact IH.
  - destruct (p x), (p y); try apply Permutation_refl. apply perm_swap.
  - eapply perm_trans; eassumption.
Qed.

Lemma sort_values_In (t : table) (r : row) : In r (sort_values t) <-> In r t.
Proof.
  split; apply Permutation_in;
    [apply sort_values_perm | apply Permutation_sym, sort_values_perm].
Qed.

Lemma sort_values_nil (t : table) : sort_values t = [] -> t = [].
Proof.
  intro H. apply Permutation_nil. rewrite <- H.
  apply sort_values_perm.
Qed.

(** ** [Series.min] and [Series.max] *)

Lemma fold_min_spec (rest : list Q) (x : Q) :
  let m := fold_left (fun m y => if Qle_bool m y then m else y) rest x in
  In m (x :: rest) /\ forall y, In y (x :: rest) -> m <= y.
Proof.
  revert x. induction rest as [|z rest IH]; intros x; simpl.
  - split; [now left|]. intros y [<-|[]]. apply Qle_refl.
  - destruct (Qle_bool x z) eqn:E.
    + destruct (IH x) as [Hin Hle]. split.
      * destruct Hin as [<-|Hin]; [now left | now right; right].
      * intros y [<-|[<-|Hy]].
        -- apply Hle. now left.
        -- apply Qle_trans with x; [apply Hle; now left | now apply Qle_bool_iff].
        -- apply Hle. now right.
    + destruct (IH z) as [Hin Hle]. split.
      * now right.
      * intros y [<-|[<-|Hy]].
        -- apply Qle_trans with z; [apply Hle; now left|].
           apply Qlt_le_weak, Qle_bool_false, E.
        -- apply Hle. now left.
        -- apply Hle. now right.
Qed.

Lemma fold_max_spec (rest : list Q) (x : Q) :
  let m := fold_left (fun m y => if Qle_bool y m then m else y) rest x in
  In m (x :: rest) /\ forall y, In y (x :: rest) -> y <= m.
Proof.
  revert x. induction rest as [|z rest IH]; intros x; simpl.
  - split; [now left|]. intros y [<-|[]]. apply Qle_refl.
  - destruct (Qle_bool z x) eqn:E.
    + destruct (IH x) as [Hin Hle]. split.
      * destruct Hin as [<-|Hin]; [now left | now right; right].
      * intros y [<-|[<-|Hy]].
        -- apply Hle. now left.
        -- apply Qle_trans with x; [now apply Qle_bool_iff | apply Hle; now left].
        -- apply Hle. now right.
    + destruct (IH z) as [Hin Hle]. split.
      * now right.
      * intros y [<-|[<-|Hy]].
        -- apply Qle_trans with z; [|apply Hle; now left].
           apply Qlt_le_weak, Qle_bool_false, E.
        -- apply Hle. now left.
        -- apply Hle. now right.
Qed.

Lemma series_min_spec (xs : list Q) (m : Q) :
  series_min xs = Some m -> is_min_of m xs.
Proof.
  destruct xs as [|x rest]; simpl; [discriminate|].
  intros [= <-]. apply fold_min_spec.
Qed.

Lemma series_max_spec (xs : list Q) (m : Q) :
  series_max xs = Some m -> is_max_of m xs.
Proof.
  destruct xs as [|x rest]; simpl; [discriminate|].
  intros [= <-]. apply fold_max_spec.
Qed.

Lemma is_min_of_perm (m : Q) (xs ys : list Q) :
  Permutation xs ys -> is_min_of m xs -> is_min_of m ys.
Proof.
  intros P [Hin Hle]. split.
  - eapply Permutation_in; eassumption.
  - intros x Hx. apply Hle. eapply Permutation_in; [apply Permutation_sym|]; eassumption.
Qed.

Lemma is_max_of_perm (m : Q) (xs ys : list Q) :
  Permutation xs ys -> is_max_of m xs -> is_max_of m ys.
Proof.
  intros P [Hin Hle]. split.
  - eapply Permutation_in; eassumption.
  - intros x Hx. apply Hle. eapply Permutation_in; [apply Permutation_sym|]; eassumption.
Qed.

(** Two least values of one column are equal as numbers. *)
Lemma is_min_of_unique (m m' : Q) (xs : list Q) :
  is_min_of m xs -> is_min_of m' xs -> m == m'.
Proof.
  intros [I1 L1] [I2 L2]. apply Qle_antisym; auto.
Qed.

(** ** [np.arange] with a positive step *)

Lemma of_nat_lt (i j : nat) : (i < j)%nat -> of_nat i < of_nat j.
Proof.
  intro H. unfold of_nat. rewrite <- Zlt_Qlt. lia.
Qed.

Lemma of_nat_S (i : nat) : of_nat (S i) == of_nat i + 1.
Proof.
  unfold of_nat. rewrite Nat2Z.inj_succ. unfold Z.succ.
  rewrite inject_Z_plus. reflexivity.
Qed.

Lemma of_nat_pos (n : nat) : (0 < n)%nat -> 0 < of_nat n.
Proof.
  intro H. change 0 with (of_nat 0). now apply of_nat_lt.
Qed.

Lemma edge_lt (a step : Q) (i j : nat) :
  0 < step -> (i < j)%nat -> a + of_nat i * step < a + of_nat j * step.
Proof.
  intros Hs Hij. apply Qplus_lt_r.
  apply Qmult_lt_compat_r; [assumption | now apply of_nat_lt].
Qed.

Lemma map_seq_sorted (f : nat -> Q) :
  (forall i j, (i < j)%nat -> f i < f j) ->
  forall n k, StronglySorted Qlt (map f (seq k n)).
Proof.
  intros Hf n. induction n as [|n IH]; intro k; simpl.
  - constructor.
  - constructor; [apply IH|].
    apply Forall_forall. intros y Hy.
    apply in_map_iff in Hy. destruct Hy as [j [<- Hj]].
    apply in_seq in Hj. apply Hf. lia.
Qed.



(** With a negative step and [start < stop] the result is empty. *)
Lemma arange_length_neg_step (a b step : Q) :
  step < 0 -> a < b -> arange_length a b step = 0%nat.
Proof.
  intros Hs Hab. unfold arange_length.
  assert (Hne : ~ step == 0) by (intro E; rewrite E in Hs; discriminate).
  set (x := (b - a) / step).
  assert (Hx : x * step == b - a).
  { unfold x. rewrite Qmult_comm. apply Qmult_div_r. exact Hne. }
  assert (Hxneg : x <= 0).
  { apply Qnot_lt_le. intro Hpos.
    assert (H := Qmult_lt_0_compat x (- step) Hpos). lra. }
  apply Qceiling_resp_le in Hxneg. change (Qceiling 0) with 0%Z in Hxneg. lia.
Qed.

(** What a successful [arange] returned. *)
Lemma arange_Ok (start stop : option Q) (step : Q) (es : list Q) :
  arange start stop step = Ok es ->
  exists a b, start = Some a /\ stop = Some b /\ ~ step == 0 /\
    es = map (fun i => a + of_nat i * step) (seq 0 (arange_length a b step)).
Proof.
  unfold arange. destruct start as [a|]; [|discriminate].
  destruct stop as [b|]; [|discriminate].
  destruct (Qeq_bool step 0) eqn:E; [discriminate|].
  intros [= <-]. exists a, b. repeat split; try reflexivity.
  now apply Qeq_bool_neq.
Qed.

Lemma arange_nan_start (stop : option Q) (step : Q) :
  arange None stop step = Raise ValueError.
Proof. reflexivity. Qed.

(** ** [pd.cut]: where a value lands *)

Lemma searchsorted_le_length (bins : list Q) (x : Q) :
  (searchsorted_left bins x <= length bins)%nat.
Proof.
  induction bins as [|b rest IH]; simpl; [lia|].
  destruct (Qlt_bool b x); lia.
Qed.

(** Every edge before the returned index is below [x]. *)
Lemma searchsorted_before (bins : list Q) (x : Q) (i : nat) (e : Q) :
  (i < searchsorted_left bins x)%nat -> nth_error bins i = Some e -> e < x.
Proof.
  revert i. induction bins as [|b rest IH]; intros i; simpl; [lia|].
  destruct (Qlt_bool b x) eqn:E; [|lia].
  destruct i as [|i]; simpl.
  - intros _ [= <-]. now apply Qlt_bool_iff.
  - intros Hi. apply IH. lia.
Qed.

(** The edge at the returned index, if there is one, is not below [x]. *)
Lemma searchsorted_at (bins : list Q) (x e : Q) :
  nth_error bins (searchsorted_left bins x) = Some e -> x <= e.
Proof.
  induction bins as [|b rest IH]; simpl; [discriminate|].
  destruct (Qlt_bool b x) eqn:E; simpl.
  - exact IH.
  - intros [= <-]. now apply Qlt_bool_false.
Qed.



(** On increasing edges the search passes every edge below [x]. *)
Lemma searchsorted_after (bins : list Q) (x : Q) :
  StronglySorted Qlt bins ->
  forall j lo, nth_error bins j = Some lo -> lo < x ->
    (j < searchsorted_left bins x)%nat.
Proof.
  induction 1 as [|b rest Hs IH Hall]; intros j lo Hj Hlo.
  - destruct j; discriminate.
  - simpl. destruct j as [|j]; simpl in Hj.
    + injection Hj as <-. apply Qlt_bool_iff in Hlo. rewrite Hlo. lia.
    + assert (Hb : b < x).
      { apply Qlt_trans with lo; [|assumption].
        rewrite Forall_forall in Hall. apply Hall.
        eapply nth_error_In; eassumption. }
      apply Qlt_bool_iff in Hb. rewrite Hb.
      apply -> Nat.succ_lt_mono. eapply IH; eassumption.
Qed.

(** On increasing edges the returned index is the number of edges below
    [x], as the binary search of numpy returns it. *)
Lemma searchsorted_count (bins : list Q) (x : Q) :
  StronglySorted Qlt bins ->
  searchsorted_left bins x = length (filter (fun b => Qlt_bool b x) bins).
Proof.
  induction 1 as [|b rest Hs IH Hall]; simpl; [reflexivity|].
  destruct (Qlt_bool b x) eqn:E; simpl; [now rewrite IH|].
  apply Qlt_bool_false in E. rewrite Forall_forall in Hall.
  assert (Hnil : filter (fun e => Qlt_bool e x) rest = []).
  { clear IH Hs. induction rest as [|c rest' IHr]; simpl; [reflexivity|].
    assert (Hc : Qlt_bool c x = false).
    { apply Qlt_bool_false. apply Qle_trans with b; [exact E|].
      apply Qlt_le_weak, Hall. now left. }
    rewrite Hc. apply IHr. intros y Hy. apply Hall. now right. }
  rewrite Hnil. reflexivity.
Qed.

(** A code names the two edges that enclose the value. *)
Lemma code_of_Some (bins : list Q) (x : Q) (j : nat) :
  code_of bins x = Some j ->
  exists lo hi, nth_error bins j = Some lo /\ nth_error bins (S j) = Some hi /\
                lo < x /\ x <= hi.
Proof.
  unfold code_of. set (k := searchsorted_left bins x).
  destruct (k =? 0)%nat eqn:E0; cbn [orb]; [discriminate|].
  destruct (k =? length bins)%nat eqn:El; [discriminate|].
  intros [= <-].
  apply Nat.eqb_neq in E0, El.
  assert (Hk : (k <= length bins)%nat) by apply searchsorted_le_length.
  destruct (nth_error bins (k - 1)) as [lo|] eqn:Hlo.
  2:{ apply nth_error_None in Hlo. lia. }
  destruct (nth_error bins k) as [hi|] eqn:Hhi.
  2:{ apply nth_error_None in Hhi. lia. }
  exists lo, hi. replace (S (k - 1)) with k by lia.
  repeat split; try assumption.
  - apply (searchsorted_before bins x (k - 1)); [fold k; lia | assumption].
  - apply (searchsorted_at bins). exact Hhi.
Qed.

(** On increasing edges, the value in [(lo, hi]] gets the code of that
    pair of edges. *)
Lemma code_of_between (bins : list Q) (x : Q) (j : nat) (lo hi : Q) :
  StronglySorted Qlt bins ->
  nth_error bins j = Some lo -> nth_error bins (S j) = Some hi ->
  lo < x -> x <= hi -> code_of bins x = Some j.
Proof.
  intros Hs Hlo Hhi Hlt Hle.
  assert (Hj : (j < searchsorted_left bins x)%nat)
    by (eapply searchsorted_after; eassumption).
  assert (Hk : (searchsorted_left bins x <= S j)%nat).
  { apply Nat.nlt_ge. intro Hgt.
    assert (H := searchsorted_before bins x (S j) hi Hgt Hhi).
    apply (Qlt_not_le _ _ H Hle). }
  assert (HSj : (S j < length bins)%nat).
  { apply nth_error_Some. congruence. }
  unfold code_of. replace (searchsorted_left bins x) with (S j) by lia.
  simpl. destruct (length bins) as [|n] eqn:En; [lia|].
  destruct (j =? n)%nat eqn:E; [apply Nat.eqb_eq in E; lia|].
  f_equal. lia.
Qed.

(** No code at or below the first edge. *)
Lemma code_of_at_first (bins : list Q) (x first : Q) :
  hd_error bins = Some first -> x <= first -> code_of bins x = None.
Proof.
  destruct bins as [|b rest]; simpl; [discriminate|].
  intros [= ->] Hle. unfold code_of. simpl.
  apply Qlt_bool_false in Hle. rewrite Hle. reflexivity.
Qed.

Lemma code_of_nil (x : Q) : code_of [] x = None.
Proof. reflexivity. Qed.


Lemma categories_nth (bins : list Q) (j : nat) (lo hi : Q) :
  nth_error bins j = Some lo -> nth_error bins (S j) = Some hi ->
  nth_error (categories bins) j = Some (mkInterval lo hi).
Proof.
  revert j. induction bins as [|a rest IH]; intros j Hlo Hhi.
  - destruct j; discriminate.
  - destruct rest as [|b rest']; [destruct j; simpl in Hhi; try discriminate; destruct j; discriminate|].
    destruct j as [|j].
    + simpl in *. congruence.
    + change (nth_error (categories (b :: rest')) j = Some (mkInterval lo hi)).
      apply IH; assumption.
Qed.

Lemma cut_Ok (xs edges : list Q) (codes : list (option nat)) :
  cut xs edges = Ok codes -> codes = map (code_of edges) xs.
Proof.
  unfold cut. destruct (negb (is_monotonic_increasing edges)); [discriminate|].
  destruct (negb (is_unique edges) && negb (length edges =? 2)%nat); [discriminate|].
  now intros [= <-].
Qed.

Lemma add_bin_columns_Ok (df : table) (edges : list Q) (f : frame) :
  add_bin_columns df edges = Ok f -> rows f = df /\ binned_by edges f.
Proof.
  unfold add_bin_columns.
  destruct (cut (map inc df) edges) as [codes|e] eqn:E; simpl; [|discriminate].
  apply cut_Ok in E. intros [= <-]. subst codes.
  split; [reflexivity|]. repeat split.
Qed.

(** ** What a successful run of the stage computed *)

Lemma stage_Ok (binSize : Q) (h v : table) (out : binned) :
  bin_and_aggregate binSize h v = Ok out ->
  exists lo hi,
    series_min (map inc (sort_values h)) = Some lo /\
    series_max (map inc (sort_values h)) = Some hi /\
    ~ binSize == 0 /\
    bins out = map (fun i => lo + of_nat i * binSize)
                   (seq 0 (arange_length lo (hi + overshoot) binSize)) /\
    rows (dfh out) = sort_values h /\
    rows (dfv out) = filter (in_range lo hi) (sort_values v) /\
    binned_by (bins out) (dfh out) /\
    binned_by (bins out) (dfv out).
Proof.
  unfold bin_and_aggregate.
  destruct (arange _ _ binSize) as [edges|e] eqn:Ea; simpl; [|discriminate].
  apply arange_Ok in Ea. destruct Ea as [lo [b [Hmin [Hmax [Hne Hedges]]]]].
  destruct (series_max (map inc (sort_values h))) as [hi|] eqn:Emax;
    simpl in Hmax; [|discriminate].
  injection Hmax as <-.
  destruct (add_bin_columns (sort_values h) edges) as [fh|e] eqn:Eh; simpl; [|discriminate].
  rewrite Hmin. simpl.
  destruct (add_bin_columns _ edges) as [fv|e] eqn:Ev in |- *; simpl; [|discriminate].
  intros [= <-]. simpl.
  apply add_bin_columns_Ok in Eh, Ev. destruct Eh as [Rh Bh], Ev as [Rv Bv].
  exists lo, hi.
  repeat (split; [first [assumption | reflexivity]|]). assumption.
Qed.

Lemma stage_min_max (h : table) (lo hi : Q) :
  series_min (map inc (sort_values h)) = Some lo ->
  series_max (map inc (sort_values h)) = Some hi ->
  is_min_of lo (map inc h) /\ is_max_of hi (map inc h) /\ lo <= hi.
Proof.
  intros Hmin Hmax.
  apply series_min_spec in Hmin. apply series_max_spec in Hmax.
  assert (P : Permutation (map inc (sort_values h)) (map inc h))
    by (apply Permutation_map, sort_values_perm).
  split; [|split].
  - eapply is_min_of_perm; eassumption.
  - eapply is_max_of_perm; eassumption.
  - destruct Hmin as [Hin Hle], Hmax as [Hin' Hle']. now apply Hle.
Qed.

(** The edges of a run are strictly increasing, whatever the bin size. *)
Lemma stage_edges_sorted (binSize lo hi : Q) :
  lo <= hi -> ~ binSize == 0 ->
  StronglySorted Qlt
    (map (fun i => lo + of_nat i * binSize)
         (seq 0 (arange_length lo (hi + overshoot) binSize))).
Proof.
  intros Hle Hne.
  assert (Hlt : lo < hi + overshoot) by (unfold overshoot; lra).
  destruct (Qlt_le_dec 0 binSize) as [Hpos|Hneg].
  - apply map_seq_sorted. intros i j Hij. now apply edge_lt.
  - assert (Hs : binSize < 0).
    { apply Qle_lt_or_eq in Hneg. destruct Hneg as [H|H]; [assumption|contradiction]. }
    rewrite arange_length_neg_step by assumption. constructor.
Qed.

(** ** The aggregates *)

Lemma Qsum_snoc (xs : list Q) (x : Q) : Qsum (xs ++ [x]) = Qsum xs + x.
Proof. unfold Qsum. rewrite fold_left_app. reflexivity. Qed.

Lemma of_nat_snoc (xs : list Q) (x : Q) :
  of_nat (length (xs ++ [x])) == of_nat (length xs) + 1.
Proof.
  rewrite length_app. simpl. rewrite Nat.add_1_r. apply of_nat_S.
Qed.

Lemma Qsquare_nonneg (a : Q) : 0 <= a * a.
Proof.
  destruct (Qlt_le_dec a 0) as [Hneg|Hpos].
  - assert (E : a * a == (- a) * (- a)) by ring. rewrite E.
    apply Qmult_le_0_compat; lra.
  - now apply Qmult_le_0_compat.
Qed.

(** The squared deviations from [m], through the sums of the values and of
    their squares. *)
Lemma sum_sq_dev_expand (xs : list Q) (m : Q) :
  Stat.sum_sq_dev xs m
  == Stat.sum_sq_dev xs 0 - (2 # 1) * m * Qsum xs + of_nat (length xs) * m * m.
Proof.
  unfold Stat.sum_sq_dev.
  induction xs as [|x xs IH] using rev_ind.
  - unfold Qsum, of_nat. simpl. ring.
  - rewrite !map_app. simpl map. rewrite !Qsum_snoc, of_nat_snoc, IH. ring.
Qed.

Lemma sum_sq_dev_nonneg (xs : list Q) (m : Q) : 0 <= Stat.sum_sq_dev xs m.
Proof.
  unfold Stat.sum_sq_dev.
  induction xs as [|x xs IH] using rev_ind.
  - unfold Qsum. simpl. apply Qle_refl.
  - rewrite map_app. simpl map. rewrite Qsum_snoc.
    assert (H := Qsquare_nonneg (x - m)). lra.
Qed.

(** Welford's update keeps the count, the mean and the sum of squared
    deviations of the values seen so far. *)
Lemma welford_invariant (xs : list Q) :
  let s := fold_left var_step xs var_init in
  nobs s = length xs /\
  of_nat (length xs) * run_mean s == Qsum xs /\
  run_m2 s == Stat.sum_sq_dev xs 0 - run_mean s * Qsum xs.
Proof.
  induction xs as [|x xs IH] using rev_ind.
  - simpl. repeat split; unfold Stat.sum_sq_dev, Qsum, of_nat; simpl; ring.
  - rewrite fold_left_app. simpl fold_left.
    set (s := fold_left var_step xs var_init) in *.
    destruct IH as [Hn [Hmean Hm2]].
    assert (Hpos : 0 < of_nat (S (nobs s))) by (apply of_nat_pos; lia).
    assert (Hne : ~ of_nat (S (nobs s)) == 0) by (intro E; rewrite E in Hpos; discriminate).
    assert (HS : of_nat (S (nobs s)) == of_nat (length xs) + 1)
      by (rewrite Hn; apply of_nat_S).
    set (M' := run_mean s + (x - run_mean s) / of_nat (S (nobs s))).
    assert (HM' : (of_nat (length xs) + 1) * M' == Qsum xs + x).
    { unfold M'. rewrite <- HS.
      rewrite Qmult_plus_distr_r, Qmult_div_r by exact Hne.
      rewrite HS. rewrite <- Hmean. ring. }
    unfold var_step. fold M'. cbn [nobs run_mean run_m2].
    split; [|split].
    + rewrite length_app. simpl. lia.
    + rewrite of_nat_snoc, Qsum_snoc. exact HM'.
    + rewrite Qsum_snoc.
      assert (E : Stat.sum_sq_dev (xs ++ [x]) 0 == Stat.sum_sq_dev xs 0 + x * x).
      { unfold Stat.sum_sq_dev. rewrite map_app. simpl map. rewrite Qsum_snoc. ring. }
      rewrite E, Hm2.
      set (T := Stat.sum_sq_dev xs 0) in *. set (S1 := Qsum xs) in *.
      set (M := run_mean s) in *. set (n := of_nat (length xs)) in *.
      clearbody T S1 M n M'. clear - Hmean HM'. nsatz.
Qed.

(** The one-pass variance is the two-pass one: the sum of the squared
    deviations from the arithmetic mean, over [n - ddof]. *)
Lemma group_var_two_pass (ddof : nat) (xs : list Q) (v : Q) :
  group_var ddof xs = Some v ->
  (ddof < length xs)%nat /\
  v == Stat.sum_sq_dev xs (Stat.arith_mean xs) / of_nat (length xs - ddof).
Proof.
  unfold group_var.
  destruct (welford_invariant xs) as [Hn [Hmean Hm2]].
  set (s := fold_left var_step xs var_init) in *.
  destruct (nobs s <=? ddof)%nat eqn:E; [discriminate|].
  apply Nat.leb_gt in E. intros [= <-]. rewrite Hn in *.
  split; [assumption|].
  assert (Hpos : 0 < of_nat (length xs)) by (apply of_nat_pos; lia).
  assert (Hne : ~ of_nat (length xs) == 0) by (intro E'; rewrite E' in Hpos; discriminate).
  assert (Hm : run_mean s == Stat.arith_mean xs).
  { unfold Stat.arith_mean. rewrite <- Hmean.
    rewrite Qmult_comm, Qdiv_mult_l by exact Hne. reflexivity. }
  apply Qmult_comp; [|reflexivity].
  rewrite Hm2, (sum_sq_dev_expand xs (Stat.arith_mean xs)), <- Hm, <- Hmean. ring.
Qed.

Lemma group_var_None (ddof : nat) (xs : list Q) :
  group_var ddof xs = None <-> (length xs <= ddof)%nat.
Proof.
  unfold group_var.
  destruct (welford_invariant xs) as [Hn _]. rewrite Hn.
  destruct (length xs <=? ddof)%nat eqn:E.
  - apply Nat.leb_le in E. tauto.
  - apply Nat.leb_gt in E. split; [discriminate | lia].
Qed.

Lemma Qsqrt_comp (a b : Q) : a == b -> Qsqrt a = Qsqrt b.
Proof. intro H. unfold Qsqrt. f_equal. now apply Qeq_eqR. Qed.

(** [std] of pandas is the sample standard deviation. *)
Lemma std_is_sample_std (xs : list Q) : std xs = Stat.sample_std xs.
Proof.
  unfold std, Stat.sample_std.
  destruct (group_var 1 xs) as [v|] eqn:E.
  - apply group_var_two_pass in E. destruct E as [Hlen Hv].
    destruct (length xs <=? 1)%nat eqn:El; [apply Nat.leb_le in El; lia|].
    simpl. f_equal. apply Qsqrt_comp. exact Hv.
  - apply group_var_None in E. apply Nat.leb_le in E. rewrite E. reflexivity.
Qed.

Lemma sample_var_nonneg (xs : list Q) : (2 <= length xs)%nat -> 0 <= Stat.sample_var xs.
Proof.
  intro H. unfold Stat.sample_var.
  apply Qle_shift_div_l; [apply of_nat_pos; lia|].
  rewrite Qmult_0_l. apply sum_sq_dev_nonneg.
Qed.

(** ** Rows, codes and groups of a binned table *)

Lemma same_code_true (a : option nat) (c : nat) :
  same_code a (Some c) = true <-> a = Some c.
Proof.
  destruct a as [i|]; simpl.
  - rewrite Nat.eqb_eq. split; congruence.
  - split; discriminate.
Qed.

Lemma transform_nth {A : Type} (agg : list Q -> option A)
    (codes : list (option nat)) (vals : list Q) (i : nat) (oc : option nat) :
  nth_error codes i = Some oc ->
  nth_error (transform agg codes vals) i
  = Some (match oc with
          | Some c => agg (group codes vals c)
          | None => None
          end).
Proof.
  intro H. unfold transform. rewrite nth_error_map, H. reflexivity.
Qed.

Lemma binned_by_code (edges : list Q) (f : frame) (i : nat) (r : row) :
  binned_by edges f -> nth_error (rows f) i = Some r ->
  nth_error (BIN f) i = Some (code_of edges (inc r)).
Proof.
  intros [HB _] Hr. rewrite HB, !nth_error_map, Hr. reflexivity.
Qed.

Lemma binned_by_row (edges : list Q) (f : frame) (i : nat) (oc : option nat) :
  binned_by edges f -> nth_error (BIN f) i = Some oc ->
  exists r, nth_error (rows f) i = Some r /\ oc = code_of edges (inc r).
Proof.
  intros [HB _] Hc. rewrite HB, !nth_error_map in Hc.
  destruct (nth_error (rows f) i) as [r|]; simpl in Hc; [|discriminate].
  exists r. split; [reflexivity | congruence].
Qed.

Lemma group_map (g : row -> option nat) (p : row -> Q) (t : table) (c : nat) :
  group (map g t) (map p t) c
  = map p (filter (fun r => same_code (g r) (Some c)) t).
Proof.
  unfold group. induction t as [|r t IH]; simpl; [reflexivity|].
  destruct (same_code (g r) (Some c)); simpl; now rewrite IH.
Qed.

Lemma filter_by_code (g : row -> option nat) (t : table) (c : nat) :
  map snd (filter (fun p => same_code (fst p) (Some c)) (combine (map g t) t))
  = filter (fun r => same_code (g r) (Some c)) t.
Proof.
  induction t as [|r t IH]; simpl; [reflexivity|].
  destruct (same_code (g r) (Some c)); simpl; now rewrite IH.
Qed.

Lemma rows_in_bin_filter (edges : list Q) (f : frame) (c : nat) :
  binned_by edges f ->
  rows_in_bin f c
  = filter (fun r => same_code (code_of edges (inc r)) (Some c)) (rows f).
Proof.
  intros [HB _]. unfold rows_in_bin. rewrite HB, map_map.
  apply (filter_by_code (fun r => code_of edges (inc r))).
Qed.

Lemma emis_in_bin_rows (edges : list Q) (f : frame) (c : nat) :
  binned_by edges f -> emis_in_bin f c = map emis (rows_in_bin f c).
Proof.
  intro H. rewrite (rows_in_bin_filter edges f c H).
  destruct H as [HB _]. unfold emis_in_bin. rewrite HB, map_map.
  apply (group_map (fun r => code_of edges (inc r)) emis).
Qed.

Lemma rows_in_bin_In (edges : list Q) (f : frame) (c : nat) (r : row) :
  binned_by edges f ->
  (In r (rows_in_bin f c) <-> In r (rows f) /\ code_of edges (inc r) = Some c).
Proof.
  intro H. rewrite (rows_in_bin_filter edges f c H), filter_In, same_code_true.
  reflexivity.
Qed.

(** A row that carries code [c] is one of the rows of bin [c]. *)
Lemma coded_row_in_bin (edges : list Q) (f : frame) (i c : nat) :
  binned_by edges f -> nth_error (BIN f) i = Some (Some c) ->
  (1 <= length (rows_in_bin f c))%nat.
Proof.
  intros H Hc. destruct (binned_by_row edges f i _ H Hc) as [r [Hr Hcode]].
  assert (Hin : In r (rows_in_bin f c)).
  { apply (rows_in_bin_In edges f c r H). split; [|symmetry; exact Hcode].
    eapply nth_error_In; eassumption. }
  destruct (rows_in_bin f c); [destruct Hin | simpl; lia].
Qed.

Lemma table_of_binned (binSize : Q) (h v : table) (out : binned) (f : frame) :
  bin_and_aggregate binSize h v = Ok out -> table_of out f ->
  binned_by (bins out) f /\ StronglySorted Qlt (bins out).
Proof.
  intros Hok Hf. apply stage_Ok in Hok.
  destruct Hok as [lo [hi [Hmin [Hmax [Hne [Hb [_ [_ [Bh Bv]]]]]]]]].
  split.
  - destruct Hf as [-> | ->]; assumption.
  - rewrite Hb. apply stage_edges_sorted; [|assumption].
    now destruct (stage_min_max h lo hi Hmin Hmax) as [_ [_ Hle]].
Qed.

(* ================================================================== *)
(** * The claims *)

Import Examples.

Lemma scenario_run : bin_and_aggregate 10 scenario_h scenario_v = Ok scenario_out.
Proof. reflexivity. Qed.

(** ** C1: bin edges and the rows they cover *)

(** C1, against the claim as stated, at the H table with incidence angles
    0 and 0.12 and the default bin width 0.1: the edges are 0 and 0.1, so
    the row at the minimum 0 carries no bin (the first interval is open on
    the left) and the last edge 0.1 is below the maximum 0.12. *)
Lemma C1_counterexample :
  ~ (forall out, bin_and_aggregate (1 # 10) ragged_h [] = Ok out ->
       every_row_binned (dfh out)) /\
  ~ (forall out, bin_and_aggregate (1 # 10) ragged_h [] = Ok out ->
       covers_max (bins out) (map inc ragged_h)).
Proof.
  split; intro H.
  - destruct (H _ eq_refl 0%nat (mkRow 1 0 (5 # 10)) eq_refl) as [c Hc].
    vm_compute in Hc. discriminate Hc.
  - destruct (H _ eq_refl) as [hi [last [[_ Hmax] [Hlast Hle]]]].
    vm_compute in Hlast. injection Hlast as <-.
    assert (Hhi : 12 # 100 <= hi) by (apply Hmax; simpl; auto).
    assert (Hlt : 1 # 10 < 12 # 100) by reflexivity.
    lra.
Qed.

(** The same already in the scenario table (incidence angles 10, 10, 20, 30,
    bin width 10): the two rows at the minimum carry no bin. *)
Lemma scenario_minimum_unbinned :
  ~ every_row_binned (dfh scenario_out).
Proof.
  intro H. destruct (H 0%nat (mkRow 1 10 (5 # 10)) eq_refl) as [c Hc].
  discriminate Hc.
Qed.


(** The stage of [PipelineB] is the stage over the exact arithmetic. *)
Lemma exact_stage (binSize : Q) (h v : table) :
  bin_and_aggregate_with exact binSize h v = bin_and_aggregate binSize h v.
Proof. reflexivity. Qed.

(** The exact [arange] starts at [start]. *)
Lemma exact_starts_at_minimum : starts_at_minimum exact.
Proof.
  intros lo hi step first rest H. cbn [edges_of exact] in H.
  apply arange_Ok in H. destruct H as [a [b [Ha [_ [_ Hes]]]]].
  injection Ha as <-.
  destruct (arange_length lo b step) as [|n]; [discriminate|].
  simpl in Hes. injection Hes as -> _. unfold of_nat. simpl. ring.
Qed.

(** The two checks of [pd.cut] on the edges. *)
Lemma monotonic_non_decreasing (edges : list Q) :
  is_monotonic_increasing edges = true -> non_decreasing edges.
Proof.
  intro H. apply Sorted_StronglySorted; [exact Qle_trans|].
  induction edges as [|a rest IH]; [constructor|].
  destruct rest as [|b rest'].
  - repeat constructor.
  - change (Qle_bool a b && is_monotonic_increasing (b :: rest') = true) in H.
    apply andb_true_iff in H. destruct H as [Hab Hrest].
    constructor; [now apply IH|]. constructor. now apply Qle_bool_iff.
Qed.

Lemma unique_strictly_increasing (edges : list Q) :
  non_decreasing edges -> is_unique edges = true -> strictly_increasing edges.
Proof.
  induction 1 as [|a rest Hs IH Hall]; intro Hu; [constructor|].
  simpl in Hu. apply andb_true_iff in Hu. destruct Hu as [Ha Hrest].
  constructor; [now apply IH|].
  rewrite Forall_forall in Hall |- *. intros y Hy.
  destruct (Qle_lt_or_eq _ _ (Hall y Hy)) as [Hlt|Heq]; [exact Hlt|].
  apply negb_true_iff in Ha. exfalso.
  assert (E : existsb (Qeq_bool a) rest = true).
  { apply existsb_exists. exists y. split; [exact Hy|]. now apply Qeq_bool_iff. }
  congruence.
Qed.

Lemma cut_checked (xs edges : list Q) (codes : list (option nat)) :
  cut xs edges = Ok codes ->
  non_decreasing edges /\ (length edges <> 2%nat -> strictly_increasing edges).
Proof.
  unfold cut.
  destruct (is_monotonic_increasing edges) eqn:Em; cbn [negb]; [|discriminate].
  apply monotonic_non_decreasing in Em.
  destruct (is_unique edges) eqn:Eu; cbn [negb andb].
  - intros _. split; [exact Em|]. intros _. now apply unique_strictly_increasing.
  - destruct (length edges =? 2)%nat eqn:El; cbn [negb]; [|discriminate].
    intros _. split; [exact Em|]. apply Nat.eqb_eq in El. intro Hne. contradiction.
Qed.

Lemma non_decreasing_nth (l : list Q) :
  non_decreasing l ->
  forall i j a b, (i <= j)%nat ->
    nth_error l i = Some a -> nth_error l j = Some b -> a <= b.
Proof.
  induction 1 as [|x l Hs IH Hall]; intros i j a b Hij Ha Hb.
  - destruct i; discriminate.
  - destruct i as [|i]; simpl in Ha.
    + injection Ha as <-. destruct j as [|j]; simpl in Hb.
      * injection Hb as <-. apply Qle_refl.
      * rewrite Forall_forall in Hall. apply Hall. eapply nth_error_In; eassumption.
    + destruct j as [|j]; [lia|]. simpl in Hb.
      apply (IH i j); [lia | assumption | assumption].
Qed.

(** On non-decreasing edges too the search passes every edge below [x]. *)
Lemma searchsorted_passes (bins : list Q) (x : Q) :
  non_decreasing bins ->
  forall j lo, nth_error bins j = Some lo -> lo < x ->
    (j < searchsorted_left bins x)%nat.
Proof.
  induction 1 as [|b rest Hs IH Hall]; intros j lo Hj Hlo.
  - destruct j; discriminate.
  - simpl. destruct j as [|j]; simpl in Hj.
    + injection Hj as <-. apply Qlt_bool_iff in Hlo. rewrite Hlo. lia.
    + assert (Hb : b < x).
      { apply Qle_lt_trans with lo; [|assumption].
        rewrite Forall_forall in Hall. apply Hall.
        eapply nth_error_In; eassumption. }
      apply Qlt_bool_iff in Hb. rewrite Hb.
      apply -> Nat.succ_lt_mono. eapply IH; eassumption.
Qed.

(** On non-decreasing edges a code exists exactly for the values above the
    first edge and up to the last. *)
Lemma code_of_defined_between (bins : list Q) (x first : Q) :
  non_decreasing bins ->
  hd_error bins = Some first ->
  ((exists c, code_of bins x = Some c)
   <-> exists last, nth_error bins (length bins - 1) = Some last /\
                    first < x /\ x <= last).
Proof.
  intros Hs Hfirst.
  assert (H0 : nth_error bins 0 = Some first) by (destruct bins; assumption).
  assert (Hlen : (0 < length bins)%nat) by (destruct bins; simpl; [discriminate | lia]).
  destruct (nth_error bins (length bins - 1)) as [last|] eqn:Hlast.
  2:{ apply nth_error_None in Hlast. lia. }
  split.
  - intros [c Hc]. exists last. split; [reflexivity|].
    apply code_of_Some in Hc.
    destruct Hc as [lo [hi [Hlo [Hhi [Hlt Hle]]]]].
    assert (HSc : (S c < length bins)%nat) by (apply nth_error_Some; congruence).
    split.
    + eapply Qle_lt_trans; [|exact Hlt].
      apply (non_decreasing_nth bins Hs 0 c); [lia | assumption | assumption].
    + eapply Qle_trans; [exact Hle|].
      apply (non_decreasing_nth bins Hs (S c) (length bins - 1)); [lia | assumption | assumption].
  - intros [last' [[= <-] [Hlt Hle]]].
    assert (Hk0 : (0 < searchsorted_left bins x)%nat)
      by (eapply searchsorted_passes; eassumption).
    assert (Hkl : (searchsorted_left bins x <= length bins - 1)%nat).
    { apply Nat.nlt_ge. intro Hgt.
      assert (H := searchsorted_before bins x _ last Hgt Hlast).
      apply (Qlt_not_le _ _ H Hle). }
    unfold code_of.
    destruct (searchsorted_left bins x =? 0)%nat eqn:E0;
      [apply Nat.eqb_eq in E0; lia|].
    destruct (searchsorted_left bins x =? length bins)%nat eqn:El;
      [apply Nat.eqb_eq in El; lia|].
    simpl. eauto.
Qed.

(** What a run that completes computed, in any arithmetic: the edges came
    from line 99, passed the checks of [pd.cut], and the codes of the H
    table are those of its sorted rows. *)
Lemma stage_with_Ok (ar : arithmetic) (binSize : Q) (h v : table) (out : binned) :
  bin_and_aggregate_with ar binSize h v = Ok out ->
  edges_of ar (series_min (map inc (sort_values h)))
              (series_max (map inc (sort_values h))) binSize = Ok (bins out) /\
  rows (dfh out) = sort_values h /\
  cut (map inc (sort_values h)) (bins out) = Ok (BIN (dfh out)).
Proof.
  unfold bin_and_aggregate_with.
  destruct (edges_of ar _ _ binSize) as [edges|e] eqn:Ea; cbn [bind]; [|discriminate].
  unfold add_bin_columns_with.
  destruct (cut (map inc (sort_values h)) edges) as [codes|e] eqn:Eh;
    cbn [bind]; [|discriminate].
  destruct (cut _ edges) as [codes'|e] eqn:Ev in |- *; cbn [bind]; [|discriminate].
  intros [= <-]. cbn [bins dfh rows BIN]. repeat split. exact Eh.
Qed.

(** C1, amended: take any arithmetic in which [np.arange] starts its result
    at [start], a non-empty H table, and a run of lines 93-114 that
    completes.  Then the edges are non-decreasing and, unless there are
    exactly two of them, strictly increasing ([pd.cut] raises on any other
    edges); the rows of the binned H table are the H rows; the first edge is
    the minimum incidence angle of the H table; and an H row is assigned to a
    bin exactly when its incidence angle is strictly above that minimum and
    at most the last edge.  So a row at the minimum is never assigned, and a
    row at the maximum is assigned only when the last edge that [np.arange]
    gives reaches the maximum. *)
Theorem C1_edges_increasing_and_rows_covered
    (ar : arithmetic) (binSize : Q) (h v : table) (out : binned) :
  starts_at_minimum ar ->
  h <> [] ->
  bin_and_aggregate_with ar binSize h v = Ok out ->
  non_decreasing (bins out) /\
  (length (bins out) <> 2%nat -> strictly_increasing (bins out)) /\
  Permutation (rows (dfh out)) h /\
  exists lo,
    is_min_of lo (map inc h) /\
    (forall first, hd_error (bins out) = Some first -> first == lo) /\
    forall i r, nth_error (rows (dfh out)) i = Some r ->
      ((exists c, nth_error (BIN (dfh out)) i = Some (Some c))
       <-> exists last,
             nth_error (bins out) (length (bins out) - 1) = Some last /\
             lo < inc r /\ inc r <= last).
Proof.
  intros Hstart Hh Hok.
  apply stage_with_Ok in Hok. destruct Hok as [Hedges [Hrows Hcut]].
  destruct (cut_checked _ _ _ Hcut) as [Hnd Hstrict].
  apply cut_Ok in Hcut.
  split; [exact Hnd|]. split; [exact Hstrict|].
  split; [rewrite Hrows; apply sort_values_perm|].
  destruct (series_min (map inc (sort_values h))) as [lo|] eqn:Emin.
  2:{ destruct (sort_values h) eqn:Es; [|discriminate].
      apply sort_values_nil in Es. contradiction. }
  exists lo. split; [|split].
  - apply series_min_spec in Emin.
    eapply is_min_of_perm; [|exact Emin].
    apply Permutation_map, sort_values_perm.
  - intros first Hfirst. destruct (bins out) as [|e rest] eqn:Eb; [discriminate|].
    injection Hfirst as <-. eapply Hstart. exact Hedges.
  - intros i r Hr. rewrite Hcut, Hrows in *.
    rewrite nth_error_map, nth_error_map, Hr. cbn [option_map].
    destruct (bins out) as [|first rest] eqn:Eb.
    + split.
      * intros [c Hc]. discriminate Hc.
      * intros [last [Hl _]]. discriminate Hl.
    + assert (Hf : first == lo) by (eapply Hstart; exact Hedges).
      assert (Hiff := code_of_defined_between (first :: rest) (inc r) first Hnd eq_refl).
      split.
      * intros [c Hc]. injection Hc as Hc.
        destruct (proj1 Hiff (ex_intro _ c Hc)) as [last [Hl [H1 H2]]].
        exists last. rewrite <- Hf. auto.
      * intros [last [Hl [H1 H2]]]. rewrite <- Hf in H1.
        destruct (proj2 Hiff (ex_intro _ last (conj Hl (conj H1 H2)))) as [c Hc].
        exists c. now rewrite Hc.
Qed.

(** The amended C1 at the scenario table, in the exact arithmetic. *)
Lemma C1_witness :
  non_decreasing (bins scenario_out) /\
  (length (bins scenario_out) <> 2%nat -> strictly_increasing (bins scenario_out)) /\
  Permutation (rows (dfh scenario_out)) scenario_h /\
  exists lo,
    is_min_of lo (map inc scenario_h) /\
    (forall first, hd_error (bins scenario_out) = Some first -> first == lo) /\
    forall i r, nth_error (rows (dfh scenario_out)) i = Some r ->
      ((exists c, nth_error (BIN (dfh scenario_out)) i = Some (Some c))
       <-> exists last,
             nth_error (bins scenario_out) (length (bins scenario_out) - 1) = Some last /\
             lo < inc r /\ inc r <= last).
Proof.
  apply (C1_edges_increasing_and_rows_covered exact 10 scenario_h scenario_v scenario_out).
  - exact exact_starts_at_minimum.
  - discriminate.
  - reflexivity.
Defined.

(** ** C2: a value on an upper edge belongs to the bin below it *)



(** ** C10: rows at the minimum incidence angle *)

(** C10: whenever the stage succeeds, an H row whose incidence angle equals
    the minimum of the H table carries no bin: its five added columns are
    NaN and it is among the rows of no bin, so no mean or standard deviation
    is computed from it. *)
Theorem C10_minimum_rows_unbinned
    (binSize : Q) (h v : table) (out : binned) (i : nat) (r : row) (lo : Q) :
  bin_and_aggregate binSize h v = Ok out ->
  is_min_of lo (map inc h) ->
  nth_error (rows (dfh out)) i = Some r ->
  inc r == lo ->
  nth_error (BIN (dfh out)) i = Some None /\
  nth_error (MEAN_SURFACE_EMISSIVITY (dfh out)) i = Some None /\
  nth_error (STD_SURFACE_EMISSIVITY (dfh out)) i = Some None /\
  nth_error (MEAN_INCIDENCE_ANGLE (dfh out)) i = Some None /\
  nth_error (MEAN_RAD_FOOTPRINT_LATITUDE (dfh out)) i = Some None /\
  forall c, ~ In r (rows_in_bin (dfh out) c).
Proof.
  intros Hok Hlo Hr Heq.
  destruct (table_of_binned binSize h v out (dfh out) Hok (or_introl eq_refl))
    as [Hby Hsorted].
  apply stage_Ok in Hok.
  destruct Hok as [lo' [hi [Hmin [Hmax [Hne [Hb _]]]]]].
  destruct (stage_min_max h lo' hi Hmin Hmax) as [Hlo' _].
  assert (Elo : lo == lo') by (eapply is_min_of_unique; eassumption).
  assert (Hnone : code_of (bins out) (inc r) = None).
  { destruct (bins out) as [|first rest] eqn:Eb; [reflexivity|].
    apply (code_of_at_first _ _ first); [reflexivity|].
    assert (Hf : first == lo').
    { destruct (arange_length lo' (hi + overshoot) binSize); [discriminate|].
      simpl in Hb. injection Hb as -> _. unfold of_nat. simpl. ring. }
    rewrite Heq, Elo, Hf. apply Qle_refl. }
  assert (Hcode : nth_error (BIN (dfh out)) i = Some None).
  { rewrite (binned_by_code (bins out) (dfh out) i r Hby Hr). now f_equal. }
  split; [exact Hcode|].
  destruct Hby as [HB [HM [HS [HI HL]]]].
  rewrite HM, HS, HI, HL.
  repeat (split; [apply (transform_nth _ _ _ i None Hcode)|]).
  intros c Hin.
  apply (rows_in_bin_In (bins out) (dfh out) c r) in Hin.
  - destruct Hin as [_ Hc]. congruence.
  - repeat split; assumption.
Qed.

(** C10 at the scenario table: the first H row has the minimum incidence
    angle 10. *)
Lemma C10_witness :
  nth_error (BIN (dfh scenario_out)) 0 = Some None /\
  nth_error (MEAN_SURFACE_EMISSIVITY (dfh scenario_out)) 0 = Some None /\
  nth_error (STD_SURFACE_EMISSIVITY (dfh scenario_out)) 0 = Some None /\
  nth_error (MEAN_INCIDENCE_ANGLE (dfh scenario_out)) 0 = Some None /\
  nth_error (MEAN_RAD_FOOTPRINT_LATITUDE (dfh scenario_out)) 0 = Some None /\
  forall c, ~ In (mkRow 1 10 (5 # 10)) (rows_in_bin (dfh scenario_out) c).
Proof.
  apply (C10_minimum_rows_unbinned 10 scenario_h scenario_v scenario_out
           0 (mkRow 1 10 (5 # 10)) 10).
  - reflexivity.
  - split.
    + simpl. left. reflexivity.
    + intros x Hx. simpl in Hx.
      destruct Hx as [<-|[<-|[<-|[<-|[]]]]]; discriminate.
  - reflexivity.
  - reflexivity.
Defined.

(** ** C6: the V table is cut to the range of the H table *)

(** C6: whenever the stage succeeds, the rows kept of the V table are, up
    to the order that sorting gives them, exactly the rows of the V input
    whose incidence angle lies between the minimum and the maximum of the H
    table's incidence angles, both included: every kept row is in range and
    a row is dropped only when it is out of range. *)
Theorem C6_V_rows_within_H_range
    (binSize : Q) (h v : table) (out : binned) :
  bin_and_aggregate binSize h v = Ok out ->
  exists lo hi,
    is_min_of lo (map inc h) /\ is_max_of hi (map inc h) /\
    Permutation (rows (dfv out)) (filter (in_range lo hi) v) /\
    forall r, In r (rows (dfv out)) <-> In r v /\ lo <= inc r /\ inc r <= hi.
Proof.
  intro Hok. apply stage_Ok in Hok.
  destruct Hok as [lo [hi [Hmin [Hmax [_ [_ [_ [Hv _]]]]]]]].
  destruct (stage_min_max h lo hi Hmin Hmax) as [Hlo [Hhi _]].
  exists lo, hi. split; [assumption|]. split; [assumption|].
  assert (P : Permutation (rows (dfv out)) (filter (in_range lo hi) v)).
  { rewrite Hv. apply filter_perm, sort_values_perm. }
  split; [exact P|].
  intro r. rewrite Hv, filter_In, sort_values_In.
  unfold in_range. rewrite andb_true_iff, !Qle_bool_iff. reflexivity.
Qed.

(** C6 at the scenario tables: of the V incidence angles 5, 20, 35, 30 the
    rows with 20 and 30 are kept. *)
Lemma C6_witness :
  exists lo hi,
    is_min_of lo (map inc scenario_h) /\ is_max_of hi (map inc scenario_h) /\
    Permutation (rows (dfv scenario_out)) (filter (in_range lo hi) scenario_v) /\
    forall r, In r (rows (dfv scenario_out))
              <-> In r scenario_v /\ lo <= inc r /\ inc r <= hi.
Proof.
  apply (C6_V_rows_within_H_range 10 scenario_h scenario_v scenario_out).
  reflexivity.
Defined.

Lemma pair_run : bin_and_aggregate 10 pair_h [] = Ok pair_out.
Proof. reflexivity. Qed.

(** ** C4 and C5: the standard deviation of a bin *)

Lemma Q2R_nonneg (a : Q) : 0 <= a -> (0 <= Q2R a)%R.
Proof.
  intro H. apply Qle_Rle in H. replace (Q2R 0) with 0%R in H; [exact H|].
  unfold Q2R. simpl. lra.
Qed.

Lemma Qsqrt_inj (a b : Q) : 0 <= a -> 0 <= b -> Qsqrt a = Qsqrt b -> a == b.
Proof.
  intros Ha Hb H. unfold Qsqrt in H.
  apply sqrt_inj in H; [now apply eqR_Qeq | now apply Q2R_nonneg | now apply Q2R_nonneg].
Qed.

Lemma Qsqrt_nonneg (a : Q) : (0 <= Qsqrt a)%R.
Proof. apply sqrt_pos. Qed.

Lemma Qsqrt_square (a : Q) : 0 <= a -> (Qsqrt a * Qsqrt a)%R = Q2R a.
Proof. intro H. apply sqrt_sqrt. now apply Q2R_nonneg. Qed.

(** The standard deviation column holds, in each row with a code, [std] of
    the emissivities of the rows with that code. *)
Lemma std_column (edges : list Q) (f : frame) (i c : nat) :
  binned_by edges f -> nth_error (BIN f) i = Some (Some c) ->
  nth_error (STD_SURFACE_EMISSIVITY f) i = Some (std (emis_in_bin f c)).
Proof.
  intros [_ [_ [HS _]]] Hc. rewrite HS.
  apply (transform_nth std _ _ i (Some c) Hc).
Qed.

(** C4, against the claim as stated: the bin (10, 20] of [pair_h] holds the
    emissivities 0.5 and 0.7; the column holds the root of 0.02 (divisor
    [n - 1 = 1]), the population standard deviation is the root of 0.01
    (divisor [n = 2]). *)
Lemma C4_counterexample :
  ~ (forall out, bin_and_aggregate 10 pair_h [] = Ok out ->
       forall i c, nth_error (BIN (dfh out)) i = Some (Some c) ->
         nth_error (STD_SURFACE_EMISSIVITY (dfh out)) i
         = Some (Stat.population_std (emis_in_bin (dfh out) c))).
Proof.
  intro H. specialize (H pair_out pair_run 1%nat 0%nat eq_refl).
  cbv -[Qsqrt] in H. injection H as H.
  apply Qsqrt_inj in H; discriminate.
Qed.

(** C4, amended: whenever the stage succeeds, in either table the standard
    deviation held by a row of bin [c] is the sample standard deviation of
    the emissivities of that bin: the root of the sum of squared deviations
    from their mean over [n - 1], and NaN when the bin has one row. *)
Theorem C4_std_is_sample_std
    (binSize : Q) (h v : table) (out : binned) (f : frame) (i c : nat) :
  bin_and_aggregate binSize h v = Ok out ->
  table_of out f ->
  nth_error (BIN f) i = Some (Some c) ->
  nth_error (STD_SURFACE_EMISSIVITY f) i
  = Some (Stat.sample_std (emis_in_bin f c)).
Proof.
  intros Hok Hf Hc.
  destruct (table_of_binned binSize h v out f Hok Hf) as [Hby _].
  rewrite (std_column (bins out) f i c Hby Hc). f_equal.
  apply std_is_sample_std.
Qed.

(** The amended C4 at [pair_h]: the second row. *)
Lemma C4_witness :
  nth_error (STD_SURFACE_EMISSIVITY (dfh pair_out)) 1
  = Some (Stat.sample_std (emis_in_bin (dfh pair_out) 0)).
Proof.
  apply (C4_std_is_sample_std 10 pair_h [] pair_out (dfh pair_out) 1 0).
  - reflexivity.
  - left. reflexivity.
  - reflexivity.
Defined.

(** C5: whenever the stage succeeds, in either table, for a bin [c] that a
    row carries (so a bin with at least one row) the standard deviation
    held by that row is NaN when the bin has exactly one row, and when it is
    a number it is non-negative (it is the non-negative root of the sample
    variance). *)
Theorem C5_std_nonnegative_nan_for_one_row
    (binSize : Q) (h v : table) (out : binned) (f : frame) (i c : nat) :
  bin_and_aggregate binSize h v = Ok out ->
  table_of out f ->
  nth_error (BIN f) i = Some (Some c) ->
  (1 <= length (rows_in_bin f c))%nat /\
  (length (rows_in_bin f c) = 1%nat ->
     nth_error (STD_SURFACE_EMISSIVITY f) i = Some None) /\
  (forall s, nth_error (STD_SURFACE_EMISSIVITY f) i = Some (Some s) ->
     (2 <= length (rows_in_bin f c))%nat /\ (0 <= s)%R /\
     (s * s)%R = Q2R (Stat.sample_var (emis_in_bin f c))).
Proof.
  intros Hok Hf Hc.
  destruct (table_of_binned binSize h v out f Hok Hf) as [Hby _].
  assert (Hlen : length (emis_in_bin f c) = length (rows_in_bin f c)).
  { rewrite (emis_in_bin_rows (bins out) f c Hby). apply length_map. }
  rewrite (std_column (bins out) f i c Hby Hc), std_is_sample_std.
  unfold Stat.sample_std. rewrite Hlen.
  split; [eapply coded_row_in_bin; eassumption|]. split.
  - intros ->. reflexivity.
  - intros s. destruct (length (rows_in_bin f c) <=? 1)%nat eqn:E; [discriminate|].
    apply Nat.leb_gt in E. intros [= <-].
    split; [lia|]. split; [apply Qsqrt_nonneg|].
    apply Qsqrt_square, sample_var_nonneg. lia.
Qed.

(** C5 at the scenario table: the H row of incidence angle 20 is alone in
    its bin. *)
Lemma C5_witness :
  (1 <= length (rows_in_bin (dfh scenario_out) 0))%nat /\
  (length (rows_in_bin (dfh scenario_out) 0) = 1%nat ->
     nth_error (STD_SURFACE_EMISSIVITY (dfh scenario_out)) 2 = Some None) /\
  (forall s, nth_error (STD_SURFACE_EMISSIVITY (dfh scenario_out)) 2 = Some (Some s) ->
     (2 <= length (rows_in_bin (dfh scenario_out) 0))%nat /\ (0 <= s)%R /\
     (s * s)%R = Q2R (Stat.sample_var (emis_in_bin (dfh scenario_out) 0))).
Proof.
  apply (C5_std_nonnegative_nan_for_one_row 10 scenario_h scenario_v scenario_out
           (dfh scenario_out) 2 0).
  - reflexivity.
  - left. reflexivity.
  - reflexivity.
Defined.

(** ** C9: an empty H table *)

(** C9, against the claim as stated: with an empty H table, the default bin
    width 0.1 and the scenario's V table the stage does not complete. *)
Lemma C9_counterexample :
  ~ (exists out, bin_and_aggregate (1 # 10) [] scenario_v = Ok out /\
                 (categories (bins out) = [] \/ all_nan (dfh out))).
Proof.
  intros [out [H _]]. discriminate H.
Qed.

(** C9, amended: a file whose first layer has zero rows loads, with zero
    rows; on an empty H table the minimum and the maximum of the incidence
    angles are NaN and the computation of the edges raises ValueError, for
    every bin width and V table: no bin and no aggregate is produced. *)
Theorem C9_empty_H_table_raises
    (file layer : string) (others : Loader.gpkg) (binSize : Q) (v : table) :
  Loader.load_A [(file, (layer, []) :: others)] file = Ok [] /\
  Loader.load_B [(file, (layer, []) :: others)] file file = Ok ([], []) /\
  series_min (map inc (sort_values [])) = None /\
  series_max (map inc (sort_values [])) = None /\
  bin_and_aggregate binSize [] v = Raise ValueError /\
  main [(file, (layer, []) :: others)] file file binSize = Raise ValueError.
Proof.
  assert (HA : Loader.load_A [(file, (layer, []) :: others)] file = Ok []).
  { unfold Loader.load_A, Loader.listlayers, Loader.read_file. simpl.
    repeat (rewrite String.eqb_refl; simpl). reflexivity. }
  assert (HB : Loader.load_B [(file, (layer, []) :: others)] file file = Ok ([], [])).
  { unfold Loader.load_B, Loader.listlayers, Loader.read_file. simpl.
    repeat (rewrite String.eqb_refl; simpl). reflexivity. }
  repeat split; try assumption; try reflexivity.
  unfold main. rewrite HB. reflexivity.
Qed.

(** ** C7: which layer the loader reads *)

(** Pipeline A reads the first layer of its file. *)
Lemma load_A_first_layer (fs : Loader.filesystem) (file : string) (t : table) :
  Loader.first_layer fs file = Some t -> Loader.load_A fs file = Ok t.
Proof.
  unfold Loader.first_layer, Loader.load_A, Loader.listlayers, Loader.read_file.
  destruct (Loader.assoc file fs) as [g|]; [|discriminate].
  destruct g as [|[name t'] rest]; [discriminate|].
  intros [= ->]. simpl. rewrite String.eqb_refl. reflexivity.
Qed.

(** Pipeline B reads the V table from the first layer of the V file, and
    the H table from the layer of the H file that bears the name of the
    first layer of the V file. *)
Lemma load_B_layers (fs : Loader.filesystem) (Hfile Vfile : string)
    (th tv : table) :
  Loader.load_B fs Hfile Vfile = Ok (th, tv) ->
  Loader.first_layer fs Vfile = Some tv /\
  exists gh gv Vlayer,
    Loader.assoc Hfile fs = Some gh /\ Loader.assoc Vfile fs = Some gv /\
    hd_error (map fst gv) = Some Vlayer /\
    Loader.assoc Vlayer gh = Some th.
Proof.
  unfold Loader.load_B, Loader.listlayers, Loader.read_file, Loader.first_layer.
  destruct (Loader.assoc Hfile fs) as [gh|]; simpl; [|discriminate].
  destruct (map fst gh) as [|Hlayer Hrest]; simpl; [discriminate|].
  destruct (Loader.assoc Vfile fs) as [gv|]; simpl; [|discriminate].
  destruct gv as [|[Vlayer tv'] gv']; simpl; [discriminate|].
  rewrite String.eqb_refl. simpl.
  destruct (Loader.assoc Vlayer gh) as [th'|] eqn:Eh; simpl; [|discriminate].
  intros [= -> ->]. split; [reflexivity|].
  exists gh, ((Vlayer, tv) :: gv'), Vlayer. repeat split. exact Eh.
Qed.

(** C7, the code at two inputs.  With a two-layer H file the H table is not
    the first layer of the H file but the layer named like the first layer of
    the V file; with one layer per file, named differently, the load raises.
    Pipeline A on the same H file returns its first layer. *)
Theorem C7_H_file_read_with_V_layer_name :
  Loader.first_layer two_layer_fs "h.gpkg" = Some h_first /\
  Loader.first_layer two_layer_fs "v.gpkg" = Some v_first /\
  Loader.load_B two_layer_fs "h.gpkg" "v.gpkg" = Ok (h_second, v_first) /\
  h_second <> h_first /\
  Loader.load_B one_layer_fs "h.gpkg" "v.gpkg" = Raise LayerError /\
  Loader.load_A two_layer_fs "h.gpkg" = Ok h_first.
Proof.
  repeat split; try reflexivity. discriminate.
Qed.

(** ** C3: the scenario of the specification *)

(** C3, against the claim as stated: in the scenario the bin of upper edge
    20 is (10, 20] and holds the row of incidence angle 20 alone, not the
    first two rows. *)
Lemma C3_counterexample :
  ~ (forall out, bin_and_aggregate 10 scenario_h scenario_v = Ok out ->
       scenario_as_specified (mkRow 1 10 (5 # 10)) (mkRow 2 10 (6 # 10))
                             (bins out) (dfh out)).
Proof.
  intro H. specialize (H scenario_out scenario_run).
  destruct H as [c20 [c30 [c40 [i20 [i30 [Hc [Hr [Hrows _]]]]]]]].
  destruct c20 as [|[|c20]].
  - discriminate Hrows.
  - injection Hc as <-. discriminate Hr.
  - destruct c20; discriminate Hc.
Qed.

(** C3, amended: for the four H rows of the scenario, whatever their
    latitudes and whatever the V table, with bin width 10 the stage succeeds
    with the edges 10, 20, 30, that is the two bins (10, 20] and (20, 30]:
    the two rows of incidence angle 10 carry no bin and no aggregate, the
    row of angle 20 is alone in (10, 20] with mean emissivity 0.8, the row of
    angle 30 is alone in (20, 30] with mean 0.9, and every standard deviation
    is NaN. *)
Theorem C3_scenario_outcome (l1 l2 l3 l4 : Q) (v : table) :
  let r1 := mkRow l1 10 (5 # 10) in
  let r2 := mkRow l2 10 (6 # 10) in
  let r3 := mkRow l3 20 (8 # 10) in
  let r4 := mkRow l4 30 (9 # 10) in
  exists out,
    bin_and_aggregate 10 [r1; r2; r3; r4] v = Ok out /\
    bins out = [10; 20; 30] /\
    categories (bins out) = [mkInterval 10 20; mkInterval 20 30] /\
    Permutation (combine (rows (dfh out)) (BIN (dfh out)))
                [(r1, None); (r2, None); (r3, Some 0%nat); (r4, Some 1%nat)] /\
    Permutation (combine (rows (dfh out)) (MEAN_SURFACE_EMISSIVITY (dfh out)))
                [(r1, None); (r2, None); (r3, Some (8 # 10)); (r4, Some (9 # 10))] /\
    rows_in_bin (dfh out) 0 = [r3] /\
    rows_in_bin (dfh out) 1 = [r4] /\
    (forall x, In x (STD_SURFACE_EMISSIVITY (dfh out)) -> x = None).
Proof.
  intros r1 r2 r3 r4. subst r1 r2 r3 r4.
  unfold bin_and_aggregate.
  cbn [sort_values fold_right insert_by_lat lat].
  split_on_latitudes.
  all: eexists; split; [reflexivity|].
  all: split; [reflexivity|]; split; [reflexivity|].
  all: split; [vm_compute; repeat perm_step|].
  all: split; [vm_compute; repeat perm_step|].
  all: split; [reflexivity|]; split; [reflexivity|].
  all: intros x Hx; vm_compute in Hx; intuition congruence.
Qed.

(* ================================================================== *)
(** * Further properties of the code *)

(** ** The order of the rows *)

Lemma insert_by_lat_sorted (r : row) (t : table) :
  sorted_by_lat t -> sorted_by_lat (insert_by_lat r t).
Proof.
  unfold sorted_by_lat. induction 1 as [|a t Hs IH Hall]; simpl.
  - constructor; constructor.
  - destruct (Qle_bool (lat r) (lat a)) eqn:E.
    + apply Qle_bool_iff in E. constructor.
      * constructor; assumption.
      * constructor; [exact E|].
        rewrite Forall_forall in *. intros y Hy.
        apply Qle_trans with (lat a); [exact E | now apply Hall].
    + apply Qle_bool_false, Qlt_le_weak in E. constructor; [exact IH|].
      rewrite Forall_forall in *. intros y Hy.
      apply (Permutation_in _ (insert_by_lat_perm r t)) in Hy.
      destruct Hy as [<-|Hy]; [exact E | now apply Hall].
Qed.

Lemma sort_values_sorted (t : table) : sorted_by_lat (sort_values t).
Proof.
  induction t as [|r t IH]; simpl.
  - constructor.
  - now apply insert_by_lat_sorted.
Qed.

Lemma filter_sorted (p : row -> bool) (t : table) :
  sorted_by_lat t -> sorted_by_lat (filter p t).
Proof.
  unfold sorted_by_lat. induction 1 as [|a t Hs IH Hall]; simpl.
  - constructor.
  - destruct (p a); [|exact IH]. constructor; [exact IH|].
    rewrite Forall_forall in *. intros y Hy.
    apply filter_In in Hy. now apply Hall.
Qed.

(** X1: in a successful run the H table of the result is the H input
    reordered, and both result tables are in ascending order of latitude
    (the range filter of line 100 keeps the order the sort of line 94
    gave). *)
Theorem X1_result_tables_sorted_by_latitude
    (binSize : Q) (h v : table) (out : binned) :
  bin_and_aggregate binSize h v = Ok out ->
  Permutation (rows (dfh out)) h /\
  sorted_by_lat (rows (dfh out)) /\
  sorted_by_lat (rows (dfv out)).
Proof.
  intro Hok. apply stage_Ok in Hok.
  destruct Hok as [lo [hi [_ [_ [_ [_ [Hh [Hv _]]]]]]]].
  rewrite Hh, Hv. split; [apply sort_values_perm|]. split.
  - apply sort_values_sorted.
  - apply filter_sorted, sort_values_sorted.
Qed.

(** X1 at the scenario tables. *)
Lemma X1_witness :
  Permutation (rows (dfh scenario_out)) scenario_h /\
  sorted_by_lat (rows (dfh scenario_out)) /\
  sorted_by_lat (rows (dfv scenario_out)).
Proof.
  apply (X1_result_tables_sorted_by_latitude 10 scenario_h scenario_v scenario_out).
  reflexivity.
Defined.

(** ** The shape of a binned table *)

Lemma transform_length {A : Type} (agg : list Q -> option A)
    (codes : list (option nat)) (vals : list Q) :
  length (transform agg codes vals) = length codes.
Proof. unfold transform. apply length_map. Qed.

Lemma series_op_length (op : R -> R -> R) (a : list (option Q)) (b : list (option R)) :
  length a = length b -> length (Plot.series_op op a b) = length a.
Proof.
  intro H. unfold Plot.series_op. rewrite length_map, length_combine, <- H.
  apply Nat.min_id.
Qed.

(** X3: in a successful run, in either table, each of the five added
    columns has one entry per row, and so have the three arrays handed to
    [fill_between] and the list of mean markers: the drawing calls never
    receive arrays of different lengths. *)
Theorem X3_added_columns_aligned_with_rows
    (binSize : Q) (h v : table) (out : binned) (f : frame) :
  bin_and_aggregate binSize h v = Ok out ->
  table_of out f ->
  length (BIN f) = length (rows f) /\
  length (MEAN_SURFACE_EMISSIVITY f) = length (rows f) /\
  length (STD_SURFACE_EMISSIVITY f) = length (rows f) /\
  length (MEAN_INCIDENCE_ANGLE f) = length (rows f) /\
  length (MEAN_RAD_FOOTPRINT_LATITUDE f) = length (rows f) /\
  length (Plot.band_x (Plot.fill_between_args f)) = length (rows f) /\
  length (Plot.band_lower (Plot.fill_between_args f)) = length (rows f) /\
  length (Plot.band_upper (Plot.fill_between_args f)) = length (rows f) /\
  length (Plot.mean_points f) = length (rows f) /\
  length (Plot.raw_points f) = length (rows f).
Proof.
  intros Hok Hf.
  destruct (table_of_binned binSize h v out f Hok Hf) as [Hby _].
  destruct Hby as [HB [HM [HS [HI HL]]]].
  assert (Hlen : length (BIN f) = length (rows f))
    by (rewrite HB, !length_map; reflexivity).
  assert (LM : length (MEAN_SURFACE_EMISSIVITY f) = length (rows f))
    by (rewrite HM, transform_length; exact Hlen).
  assert (LS : length (STD_SURFACE_EMISSIVITY f) = length (rows f))
    by (rewrite HS, transform_length; exact Hlen).
  assert (LI : length (MEAN_INCIDENCE_ANGLE f) = length (rows f))
    by (rewrite HI, transform_length; exact Hlen).
  assert (LL : length (MEAN_RAD_FOOTPRINT_LATITUDE f) = length (rows f))
    by (rewrite HL, transform_length; exact Hlen).
  unfold Plot.fill_between_args, Plot.series_sub, Plot.series_add,
    Plot.mean_points, Plot.raw_points.
  cbn [Plot.band_x Plot.band_lower Plot.band_upper].
  rewrite !series_op_length by congruence.
  rewrite length_combine, length_map, LL, LM, Nat.min_id.
  repeat split; assumption.
Qed.

(** X3 at the V table of the scenario. *)
Lemma X3_witness :
  length (BIN (dfv scenario_out)) = length (rows (dfv scenario_out)) /\
  length (MEAN_SURFACE_EMISSIVITY (dfv scenario_out)) = length (rows (dfv scenario_out)) /\
  length (STD_SURFACE_EMISSIVITY (dfv scenario_out)) = length (rows (dfv scenario_out)) /\
  length (MEAN_INCIDENCE_ANGLE (dfv scenario_out)) = length (rows (dfv scenario_out)) /\
  length (MEAN_RAD_FOOTPRINT_LATITUDE (dfv scenario_out)) = length (rows (dfv scenario_out)) /\
  length (Plot.band_x (Plot.fill_between_args (dfv scenario_out)))
    = length (rows (dfv scenario_out)) /\
  length (Plot.band_lower (Plot.fill_between_args (dfv scenario_out)))
    = length (rows (dfv scenario_out)) /\
  length (Plot.band_upper (Plot.fill_between_args (dfv scenario_out)))
    = length (rows (dfv scenario_out)) /\
  length (Plot.mean_points (dfv scenario_out)) = length (rows (dfv scenario_out)) /\
  length (Plot.raw_points (dfv scenario_out)) = length (rows (dfv scenario_out)).
Proof.
  apply (X3_added_columns_aligned_with_rows 10 scenario_h scenario_v scenario_out).
  - reflexivity.
  - right. reflexivity.
Defined.

(** ** Codes and intervals *)

Lemma categories_nth_inv (edges : list Q) (c : nat) (iv : interval) :
  nth_error (categories edges) c = Some iv ->
  nth_error edges c = Some (ileft iv) /\ nth_error edges (S c) = Some (iright iv).
Proof.
  revert c. induction edges as [|a rest IH]; intros c H.
  - destruct c; discriminate.
  - destruct rest as [|b rest'].
    + destruct c; discriminate.
    + destruct c as [|c].
      * simpl in H. injection H as <-. split; reflexivity.
      * change (nth_error (categories (b :: rest')) c = Some iv) in H.
        apply IH in H. exact H.
Qed.

Lemma categories_length (edges : list Q) :
  length (categories edges) = (length edges - 1)%nat.
Proof.
  induction edges as [|a rest IH]; [reflexivity|].
  destruct rest as [|b rest']; [reflexivity|].
  change (S (length (categories (b :: rest'))) = (length (a :: b :: rest') - 1)%nat).
  rewrite IH. simpl. lia.
Qed.

(** On increasing edges a value has code [c] exactly when interval [c]
    contains it. *)
Lemma code_of_iff_contains (edges : list Q) (x : Q) (c : nat) :
  StronglySorted Qlt edges ->
  (code_of edges x = Some c
   <-> exists iv, nth_error (categories edges) c = Some iv /\ contains iv x).
Proof.
  intro Hs. split.
  - intro H. apply code_of_Some in H.
    destruct H as [lo [hi [Hlo [Hhi [Hlt Hle]]]]].
    exists (mkInterval lo hi). split; [now apply categories_nth|].
    split; assumption.
  - intros [iv [Hiv [Hlt Hle]]]. apply categories_nth_inv in Hiv.
    destruct Hiv as [Hlo Hhi].
    eapply code_of_between; eassumption.
Qed.

(** X4: in a successful run, in either table, a row carries the code [c]
    exactly when interval [c] of the categories, open on the left and closed
    on the right, contains its incidence angle; it carries no code exactly
    when no interval contains it.  So the intervals never overlap and the
    code is always a valid index into the categories. *)
Theorem X4_code_iff_interval_contains
    (binSize : Q) (h v : table) (out : binned) (f : frame) (i : nat) (r : row) :
  bin_and_aggregate binSize h v = Ok out ->
  table_of out f ->
  nth_error (rows f) i = Some r ->
  (forall c, nth_error (BIN f) i = Some (Some c)
             <-> exists iv, nth_error (categories (bins out)) c = Some iv /\
                            contains iv (inc r)) /\
  (nth_error (BIN f) i = Some None
   <-> forall iv, In iv (categories (bins out)) -> ~ contains iv (inc r)) /\
  (forall c, nth_error (BIN f) i = Some (Some c) ->
             (c < length (categories (bins out)))%nat).
Proof.
  intros Hok Hf Hr.
  destruct (table_of_binned binSize h v out f Hok Hf) as [Hby Hsorted].
  rewrite (binned_by_code (bins out) f i r Hby Hr).
  assert (Hiff := fun c => code_of_iff_contains (bins out) (inc r) c Hsorted).
  split; [|split].
  - intro c. rewrite <- Hiff. split; [now intros [= ->] | now intros ->].
  - split.
    + intros [= Hnone] iv Hin Hc.
      apply In_nth_error in Hin. destruct Hin as [c Hc'].
      assert (H : code_of (bins out) (inc r) = Some c) by (apply Hiff; eauto).
      congruence.
    + intro Hall. clear Hiff.
      destruct (code_of (bins out) (inc r)) as [c|] eqn:E; [|reflexivity].
      apply (code_of_iff_contains (bins out) (inc r) c Hsorted) in E.
      destruct E as [iv [Hiv Hc]].
      exfalso. apply (Hall iv); [eapply nth_error_In; eassumption | exact Hc].
  - intros c [= Hc]. apply Hiff in Hc. destruct Hc as [iv [Hiv _]].
    apply nth_error_Some. congruence.
Qed.

(** X4 at the scenario table: the H row of incidence angle 30. *)
Lemma X4_witness :
  (forall c, nth_error (BIN (dfh scenario_out)) 3 = Some (Some c)
             <-> exists iv, nth_error (categories (bins scenario_out)) c = Some iv /\
                            contains iv (inc (mkRow 4 30 (9 # 10)))) /\
  (nth_error (BIN (dfh scenario_out)) 3 = Some None
   <-> forall iv, In iv (categories (bins scenario_out)) ->
                  ~ contains iv (inc (mkRow 4 30 (9 # 10)))) /\
  (forall c, nth_error (BIN (dfh scenario_out)) 3 = Some (Some c) ->
             (c < length (categories (bins scenario_out)))%nat).
Proof.
  apply (X4_code_iff_interval_contains 10 scenario_h scenario_v scenario_out
           (dfh scenario_out) 3 (mkRow 4 30 (9 # 10))).
  - reflexivity.
  - left. reflexivity.
  - reflexivity.
Defined.

(** ** The means of a bin *)

Lemma mean_nonempty (xs : list Q) : xs <> [] -> exists m, mean xs = Some m.
Proof. intro H. destruct xs; [contradiction | eexists; reflexivity]. Qed.

(** The values that [groupby] hands to the aggregate are those of the rows
    of the bin. *)
Lemma column_in_bin_rows (edges : list Q) (f : frame) (p : row -> Q) (c : nat) :
  binned_by edges f ->
  group (BIN f) (map p (rows f)) c = map p (rows_in_bin f c).
Proof.
  intro H. rewrite (rows_in_bin_filter edges f c H).
  destruct H as [HB _]. rewrite HB, map_map.
  apply (group_map (fun r => code_of edges (inc r)) p).
Qed.

Lemma column_in_bin_nonempty (edges : list Q) (f : frame) (p : row -> Q) (i c : nat) :
  binned_by edges f -> nth_error (BIN f) i = Some (Some c) ->
  group (BIN f) (map p (rows f)) c <> [].
Proof.
  intros H Hc E.
  assert (Hlen := coded_row_in_bin edges f i c H Hc).
  rewrite (column_in_bin_rows edges f p c H) in E.
  apply (f_equal (@length Q)) in E. rewrite length_map in E. simpl in E. lia.
Qed.

(** ** The V table against the edges of the H table *)


Import MoreExamples.

Lemma edge_run : bin_and_aggregate 10 scenario_h edge_v = Ok edge_out.
Proof. reflexivity. Qed.


(** ** The band and the markers of the plot *)

Import Plot.

Lemma series_op_nth (op : R -> R -> R) (a : list (option Q)) (b : list (option R))
    (i : nat) (x : option Q) (y : option R) :
  nth_error a i = Some x -> nth_error b i = Some y ->
  nth_error (series_op op a b) i
  = Some (match x, y with
          | Some x', Some y' => Some (op (Q2R x') y')
          | _, _ => None
          end).
Proof.
  revert b i. induction a as [|a0 a IH]; intros b i Ha Hb.
  - destruct i; discriminate.
  - destruct b as [|b0 b]; [destruct i; discriminate|].
    destruct i as [|i]; simpl in *.
    + injection Ha as <-. injection Hb as <-. reflexivity.
    + now apply IH.
Qed.

Lemma mean_column (edges : list Q) (f : frame) (i c : nat) :
  binned_by edges f -> nth_error (BIN f) i = Some (Some c) ->
  nth_error (MEAN_SURFACE_EMISSIVITY f) i = Some (mean (emis_in_bin f c)).
Proof.
  intros [_ [HM _]] Hc. rewrite HM.
  apply (transform_nth mean _ _ i (Some c) Hc).
Qed.

(** X10: in a successful run, in either table, the band of the plot is NaN
    at a row without a bin and at a row that is alone in its bin; at a row
    whose bin has two rows or more it runs from the mean emissivity of the
    bin minus the standard deviation to the mean plus the standard deviation,
    and the mean lies inside it. *)
Theorem X10_band_around_the_mean
    (binSize : Q) (h v : table) (out : binned) (f : frame) (i : nat) :
  bin_and_aggregate binSize h v = Ok out ->
  table_of out f ->
  (nth_error (BIN f) i = Some None ->
     nth_error (band_lower (fill_between_args f)) i = Some None /\
     nth_error (band_upper (fill_between_args f)) i = Some None) /\
  (forall c, nth_error (BIN f) i = Some (Some c) ->
     length (rows_in_bin f c) = 1%nat ->
     nth_error (band_lower (fill_between_args f)) i = Some None /\
     nth_error (band_upper (fill_between_args f)) i = Some None) /\
  (forall c, nth_error (BIN f) i = Some (Some c) ->
     (2 <= length (rows_in_bin f c))%nat ->
     exists m s,
       nth_error (MEAN_SURFACE_EMISSIVITY f) i = Some (Some m) /\
       nth_error (STD_SURFACE_EMISSIVITY f) i = Some (Some s) /\
       nth_error (band_lower (fill_between_args f)) i = Some (Some (Q2R m - s)%R) /\
       nth_error (band_upper (fill_between_args f)) i = Some (Some (Q2R m + s)%R) /\
       (Q2R m - s <= Q2R m <= Q2R m + s)%R).
Proof.
  intros Hok Hf.
  destruct (table_of_binned binSize h v out f Hok Hf) as [Hby _].
  assert (Hcols := Hby). destruct Hcols as [_ [HM [HS _]]].
  assert (Hlen : forall c, length (emis_in_bin f c) = length (rows_in_bin f c)).
  { intro c. rewrite (emis_in_bin_rows (bins out) f c Hby). apply length_map. }
  unfold fill_between_args, series_sub, series_add. cbn [band_lower band_upper].
  split; [|split].
  - intro Hc.
    assert (Hm : nth_error (MEAN_SURFACE_EMISSIVITY f) i = Some None)
      by (rewrite HM; apply (transform_nth mean _ _ i None Hc)).
    assert (Hs : nth_error (STD_SURFACE_EMISSIVITY f) i = Some None)
      by (rewrite HS; apply (transform_nth std _ _ i None Hc)).
    split; rewrite (series_op_nth _ _ _ i None None Hm Hs); reflexivity.
  - intros c Hc Hone.
    assert (Hs : nth_error (STD_SURFACE_EMISSIVITY f) i = Some None).
    { rewrite (std_column (bins out) f i c Hby Hc), std_is_sample_std.
      unfold Stat.sample_std. rewrite Hlen, Hone. reflexivity. }
    assert (Hm := mean_column (bins out) f i c Hby Hc).
    split; rewrite (series_op_nth _ _ _ i _ None Hm Hs);
      destruct (mean (emis_in_bin f c)); reflexivity.
  - intros c Hc Htwo.
    assert (Hne : emis_in_bin f c <> []).
    { intro E. specialize (Hlen c). rewrite E in Hlen. simpl in Hlen. lia. }
    destruct (mean_nonempty _ Hne) as [m Hm'].
    assert (Hm := mean_column (bins out) f i c Hby Hc). rewrite Hm' in Hm.
    assert (Hs : nth_error (STD_SURFACE_EMISSIVITY f) i
                 = Some (Some (Qsqrt (Stat.sample_var (emis_in_bin f c))))).
    { rewrite (std_column (bins out) f i c Hby Hc), std_is_sample_std.
      unfold Stat.sample_std. rewrite Hlen.
      destruct (length (rows_in_bin f c) <=? 1)%nat eqn:E;
        [apply Nat.leb_le in E; lia | reflexivity]. }
    exists m, (Qsqrt (Stat.sample_var (emis_in_bin f c))).
    split; [exact Hm|]. split; [exact Hs|].
    split; [exact (series_op_nth Rminus _ _ i _ _ Hm Hs)|].
    split; [exact (series_op_nth Rplus _ _ i _ _ Hm Hs)|].
    assert (H0 := Qsqrt_nonneg (Stat.sample_var (emis_in_bin f c))). lra.
Qed.

(** X10 at the second row of [pair_h], whose bin has two rows. *)
Lemma X10_witness :
  (nth_error (BIN (dfh pair_out)) 1 = Some None ->
     nth_error (band_lower (fill_between_args (dfh pair_out))) 1 = Some None /\
     nth_error (band_upper (fill_between_args (dfh pair_out))) 1 = Some None) /\
  (forall c, nth_error (BIN (dfh pair_out)) 1 = Some (Some c) ->
     length (rows_in_bin (dfh pair_out) c) = 1%nat ->
     nth_error (band_lower (fill_between_args (dfh pair_out))) 1 = Some None /\
     nth_error (band_upper (fill_between_args (dfh pair_out))) 1 = Some None) /\
  (forall c, nth_error (BIN (dfh pair_out)) 1 = Some (Some c) ->
     (2 <= length (rows_in_bin (dfh pair_out) c))%nat ->
     exists m s,
       nth_error (MEAN_SURFACE_EMISSIVITY (dfh pair_out)) 1 = Some (Some m) /\
       nth_error (STD_SURFACE_EMISSIVITY (dfh pair_out)) 1 = Some (Some s) /\
       nth_error (band_lower (fill_between_args (dfh pair_out))) 1
         = Some (Some (Q2R m - s)%R) /\
       nth_error (band_upper (fill_between_args (dfh pair_out))) 1
         = Some (Some (Q2R m + s)%R) /\
       (Q2R m - s <= Q2R m <= Q2R m + s)%R).
Proof.
  apply (X10_band_around_the_mean 10 pair_h [] pair_out (dfh pair_out) 1).
  - reflexivity.
  - left. reflexivity.
Defined.

(** X11: in a successful run, in either table, two rows of the same bin
    hold the same values in all four aggregate columns, so they give the
    same mean marker, and both coordinates of that marker are numbers. *)
Theorem X11_rows_of_a_bin_share_aggregates
    (binSize : Q) (h v : table) (out : binned) (f : frame) (i j c : nat) :
  bin_and_aggregate binSize h v = Ok out ->
  table_of out f ->
  nth_error (BIN f) i = Some (Some c) ->
  nth_error (BIN f) j = Some (Some c) ->
  nth_error (MEAN_SURFACE_EMISSIVITY f) i = nth_error (MEAN_SURFACE_EMISSIVITY f) j /\
  nth_error (STD_SURFACE_EMISSIVITY f) i = nth_error (STD_SURFACE_EMISSIVITY f) j /\
  nth_error (MEAN_INCIDENCE_ANGLE f) i = nth_error (MEAN_INCIDENCE_ANGLE f) j /\
  nth_error (MEAN_RAD_FOOTPRINT_LATITUDE f) i = nth_error (MEAN_RAD_FOOTPRINT_LATITUDE f) j /\
  nth_error (mean_points f) i = nth_error (mean_points f) j /\
  exists x y, nth_error (mean_points f) i = Some (Some x, Some y).
Proof.
  intros Hok Hf Hi Hj.
  destruct (table_of_binned binSize h v out f Hok Hf) as [Hby _].
  assert (Hcols := Hby). destruct Hcols as [_ [HM [HS [HI HL]]]].
  assert (E1 : nth_error (MEAN_SURFACE_EMISSIVITY f) i
               = nth_error (MEAN_SURFACE_EMISSIVITY f) j).
  { rewrite HM, (transform_nth mean _ _ i _ Hi), (transform_nth mean _ _ j _ Hj).
    reflexivity. }
  assert (E2 : nth_error (MEAN_RAD_FOOTPRINT_LATITUDE f) i
               = nth_error (MEAN_RAD_FOOTPRINT_LATITUDE f) j).
  { rewrite HL, (transform_nth mean _ _ i _ Hi), (transform_nth mean _ _ j _ Hj).
    reflexivity. }
  split; [exact E1|]. split.
  { rewrite HS, (transform_nth std _ _ i _ Hi), (transform_nth std _ _ j _ Hj).
    reflexivity. }
  split.
  { rewrite HI, (transform_nth mean _ _ i _ Hi), (transform_nth mean _ _ j _ Hj).
    reflexivity. }
  split; [exact E2|].
  destruct (mean_nonempty _ (column_in_bin_nonempty (bins out) f emis i c Hby Hi))
    as [y Hy].
  destruct (mean_nonempty _ (column_in_bin_nonempty (bins out) f lat i c Hby Hi))
    as [x Hx].
  assert (Hyi : nth_error (MEAN_SURFACE_EMISSIVITY f) i = Some (Some y))
    by (rewrite HM, (transform_nth mean _ _ i _ Hi); now f_equal).
  assert (Hxi : nth_error (MEAN_RAD_FOOTPRINT_LATITUDE f) i = Some (Some x))
    by (rewrite HL, (transform_nth mean _ _ i _ Hi); now f_equal).
  assert (Hpi : nth_error (mean_points f) i = Some (Some x, Some y)).
  { unfold mean_points. clear - Hxi Hyi.
    revert Hxi Hyi. generalize (MEAN_RAD_FOOTPRINT_LATITUDE f) (MEAN_SURFACE_EMISSIVITY f).
    induction i as [|i IH]; intros [|a l] [|b l'] Ha Hb; try discriminate.
    - simpl in *. congruence.
    - simpl in *. now apply IH. }
  assert (Hpj : nth_error (mean_points f) j = Some (Some x, Some y)).
  { rewrite E1 in Hyi. rewrite E2 in Hxi. unfold mean_points. clear - Hxi Hyi.
    revert Hxi Hyi. generalize (MEAN_RAD_FOOTPRINT_LATITUDE f) (MEAN_SURFACE_EMISSIVITY f).
    induction j as [|j IH]; intros [|a l] [|b l'] Ha Hb; try discriminate.
    - simpl in *. congruence.
    - simpl in *. now apply IH. }
  split; [congruence | eauto].
Qed.

(** X11 at the two rows of bin 0 of [pair_h]. *)
Lemma X11_witness :
  nth_error (MEAN_SURFACE_EMISSIVITY (dfh pair_out)) 1
    = nth_error (MEAN_SURFACE_EMISSIVITY (dfh pair_out)) 2 /\
  nth_error (STD_SURFACE_EMISSIVITY (dfh pair_out)) 1
    = nth_error (STD_SURFACE_EMISSIVITY (dfh pair_out)) 2 /\
  nth_error (MEAN_INCIDENCE_ANGLE (dfh pair_out)) 1
    = nth_error (MEAN_INCIDENCE_ANGLE (dfh pair_out)) 2 /\
  nth_error (MEAN_RAD_FOOTPRINT_LATITUDE (dfh pair_out)) 1
    = nth_error (MEAN_RAD_FOOTPRINT_LATITUDE (dfh pair_out)) 2 /\
  nth_error (mean_points (dfh pair_out)) 1 = nth_error (mean_points (dfh pair_out)) 2 /\
  exists x y, nth_error (mean_points (dfh pair_out)) 1 = Some (Some x, Some y).
Proof.
  apply (X11_rows_of_a_bin_share_aggregates 10 pair_h [] pair_out (dfh pair_out) 1 2 0).
  - reflexivity.
  - left. reflexivity.
  - reflexivity.
  - reflexivity.
Defined.

(** ** The loaders *)

(** X12: Pipeline A's loader returns a table exactly when its file has a
    first layer, and the table is then the rows of that layer; on a missing
    file and on a file without layers it raises. *)
Theorem X12_load_A_outcome (fs : Loader.filesystem) (file : string) :
  match Loader.load_A fs file with
  | Ok t => Loader.first_layer fs file = Some t
  | Raise _ => Loader.first_layer fs file = None
  end.
Proof.
  unfold Loader.load_A, Loader.listlayers, Loader.read_file, Loader.first_layer.
  destruct (Loader.assoc file fs) as [g|]; cbn [bind]; [|reflexivity].
  destruct g as [|[name t] rest]; cbn [map fst Loader.item0 bind]; [reflexivity|].
  cbn [Loader.assoc]. rewrite String.eqb_refl. reflexivity.
Qed.

(** X13: when the first layers of the two files bear the same name,
    Pipeline B's loader returns the first layer of the H file as the H table
    and the first layer of the V file as the V table. *)
Theorem X13_load_B_right_when_first_layer_names_agree
    (fs : Loader.filesystem) (Hfile Vfile name : string)
    (th tv : table) (gh gv : Loader.gpkg) :
  Loader.assoc Hfile fs = Some ((name, th) :: gh) ->
  Loader.assoc Vfile fs = Some ((name, tv) :: gv) ->
  Loader.load_B fs Hfile Vfile = Ok (th, tv) /\
  Loader.first_layer fs Hfile = Some th /\
  Loader.first_layer fs Vfile = Some tv.
Proof.
  intros HH HV.
  unfold Loader.load_B, Loader.listlayers, Loader.read_file, Loader.first_layer.
  rewrite HH, HV. cbn [bind map fst Loader.item0 Loader.assoc].
  rewrite String.eqb_refl. cbn [bind]. repeat split.
Qed.

(** X14: when the H file has a layer that bears the name of the first layer
    of the V file, Pipeline B's loader returns that layer as the H table,
    wherever it stands in the H file, and the first layer of the V file as
    the V table. *)
Theorem X14_load_B_reads_H_layer_named_like_V_layer
    (fs : Loader.filesystem) (Hfile Vfile Vname : string)
    (t tv : table) (gh gv : Loader.gpkg) :
  Loader.assoc Hfile fs = Some gh ->
  Loader.assoc Vfile fs = Some ((Vname, tv) :: gv) ->
  Loader.assoc Vname gh = Some t ->
  Loader.load_B fs Hfile Vfile = Ok (t, tv) /\
  Loader.first_layer fs Vfile = Some tv.
Proof.
  intros HH HV Ht.
  unfold Loader.load_B, Loader.listlayers, Loader.read_file, Loader.first_layer.
  rewrite HH, HV.
  destruct gh as [|[Hname th] gh']; [discriminate Ht|].
  cbn [bind map fst Loader.item0].
  replace (Loader.assoc Vname ((Vname, tv) :: gv)) with (Some tv)
    by (cbn [Loader.assoc]; now rewrite String.eqb_refl).
  cbn [bind]. rewrite Ht. split; reflexivity.
Qed.

(** X15: Pipeline B's loader raises whenever the H file is missing or has
    no layer, whatever the V file is: line 87 asks for the name of the first
    layer of the H file although that name is never used. *)
Theorem X15_load_B_raises_without_H_first_layer
    (fs : Loader.filesystem) (Hfile Vfile : string) :
  Loader.first_layer fs Hfile = None ->
  exists e, Loader.load_B fs Hfile Vfile = Raise e.
Proof.
  unfold Loader.first_layer, Loader.load_B, Loader.listlayers.
  destruct (Loader.assoc Hfile fs) as [[|[name t] rest]|]; cbn [bind map Loader.item0].
  - intros _. eexists. reflexivity.
  - discriminate.
  - intros _. eexists. reflexivity.
Qed.

Import MoreFiles.

(** X13 at two files whose only layers are both named "emissivity". *)
Lemma X13_witness :
  Loader.load_B same_name_fs "h.gpkg" "v.gpkg" = Ok (h_first, v_first) /\
  Loader.first_layer same_name_fs "h.gpkg" = Some h_first /\
  Loader.first_layer same_name_fs "v.gpkg" = Some v_first.
Proof.
  apply (X13_load_B_right_when_first_layer_names_agree
           same_name_fs "h.gpkg" "v.gpkg" "emissivity" h_first v_first [] []).
  - reflexivity.
  - reflexivity.
Defined.

(** X14 at the two-layer H file: the H table is the second layer. *)
Lemma X14_witness :
  Loader.load_B two_layer_fs "h.gpkg" "v.gpkg" = Ok (h_second, v_first) /\
  Loader.first_layer two_layer_fs "v.gpkg" = Some v_first.
Proof.
  apply (X14_load_B_reads_H_layer_named_like_V_layer
           two_layer_fs "h.gpkg" "v.gpkg" "emis_v" h_second v_first
           [ ("emis_h"%string, h_first); ("emis_v"%string, h_second) ] []).
  - reflexivity.
  - reflexivity.
  - reflexivity.
Defined.

(** X15 at a missing H file and at an H file without layers. *)
Lemma X15_witness :
  (exists e, Loader.load_B one_layer_fs "absent.gpkg" "v.gpkg" = Raise e) /\
  (exists e, Loader.load_B no_layer_fs "h.gpkg" "v.gpkg" = Raise e).
Proof.
  split.
  - apply (X15_load_B_raises_without_H_first_layer one_layer_fs "absent.gpkg" "v.gpkg").
    reflexivity.
  - apply (X15_load_B_raises_without_H_first_layer no_layer_fs "h.gpkg" "v.gpkg").
    reflexivity.
Defined.

(** ** The order of the rows in the input *)

Lemma distinct_latitudes_perm (t t' : table) :
  Permutation t t' -> distinct_latitudes t -> distinct_latitudes t'.
Proof.
  intros P [Hnd Hinj]. split.
  - eapply Permutation_NoDup; eassumption.
  - intros r r' Hr Hr'. apply Hinj; eapply Permutation_in;
      try (apply Permutation_sym; eassumption); assumption.
Qed.

Lemma sorted_distinct_strict (t : table) :
  sorted_by_lat t -> distinct_latitudes t -> strictly_sorted_by_lat t.
Proof.
  unfold sorted_by_lat, strictly_sorted_by_lat.
  induction 1 as [|a t Hs IH Hall]; intros [Hnd Hinj]; [constructor|].
  inversion Hnd as [|a' t' Hnotin Hnd']; subst.
  constructor.
  - apply IH. split; [assumption|].
    intros r r' Hr Hr'. apply Hinj; now right.
  - rewrite Forall_forall in *. intros y Hy.
    destruct (Qle_lt_or_eq _ _ (Hall y Hy)) as [Hlt|Heq]; [exact Hlt|].
    exfalso. apply Hnotin.
    rewrite (Hinj a y (or_introl eq_refl) (or_intror Hy) Heq). exact Hy.
Qed.

(** Two strictly sorted tables with the same rows are the same table. *)
Lemma strictly_sorted_unique (t t' : table) :
  strictly_sorted_by_lat t -> strictly_sorted_by_lat t' ->
  Permutation t t' -> t = t'.
Proof.
  unfold strictly_sorted_by_lat. intro Hs. revert t'.
  induction Hs as [|a t Hs IH Hall]; intros t' Hs' P.
  - symmetry. now apply Permutation_nil.
  - destruct Hs' as [|b t' Hs' Hall'].
    + apply Permutation_sym, Permutation_nil in P. discriminate.
    + rewrite Forall_forall in Hall, Hall'.
      assert (Eab : a = b).
      { assert (Ha : In a (b :: t')) by (eapply Permutation_in; [exact P | now left]).
        assert (Hb : In b (a :: t))
          by (eapply Permutation_in; [apply Permutation_sym; exact P | now left]).
        destruct Ha as [Ha|Ha]; [now symmetry|].
        destruct Hb as [Hb|Hb]; [exact Hb|].
        exfalso. apply (Qlt_irrefl (lat a)).
        apply Qlt_trans with (lat b); [now apply Hall | now apply Hall']. }
      subst b. f_equal. apply IH; [exact Hs'|].
      eapply Permutation_cons_inv; exact P.
Qed.

Lemma sort_values_of_reordered (t t' : table) :
  distinct_latitudes t -> Permutation t t' -> sort_values t = sort_values t'.
Proof.
  intros Hd P.
  assert (P' : Permutation (sort_values t) (sort_values t')).
  { eapply perm_trans; [apply sort_values_perm|].
    eapply perm_trans; [exact P | apply Permutation_sym, sort_values_perm]. }
  apply strictly_sorted_unique; [| |exact P'].
  - apply sorted_distinct_strict; [apply sort_values_sorted|].
    eapply distinct_latitudes_perm; [apply Permutation_sym, sort_values_perm | exact Hd].
  - apply sorted_distinct_strict; [apply sort_values_sorted|].
    eapply distinct_latitudes_perm; [|exact Hd].
    eapply perm_trans; [exact P | apply Permutation_sym, sort_values_perm].
Qed.

(** X17: when no two rows of the H table share a latitude, and likewise
    for the V table, the outcome of the stage (edges, rows, codes, means,
    standard deviations, or the exception) does not depend on the order in
    which the rows of the two tables are given. *)
Theorem X17_outcome_independent_of_input_row_order
    (binSize : Q) (h h' v v' : table) :
  distinct_latitudes h -> distinct_latitudes v ->
  Permutation h h' -> Permutation v v' ->
  bin_and_aggregate binSize h v = bin_and_aggregate binSize h' v'.
Proof.
  intros Hh Hv Ph Pv. unfold bin_and_aggregate.
  rewrite (sort_values_of_reordered h h' Hh Ph).
  rewrite (sort_values_of_reordered v v' Hv Pv).
  reflexivity.
Qed.

(** X17 at the scenario tables, given in two orders. *)
Lemma X17_witness :
  bin_and_aggregate 10 scenario_h scenario_v
  = bin_and_aggregate 10 scenario_h_reordered scenario_v_reordered.
Proof.
  apply (X17_outcome_independent_of_input_row_order
           10 scenario_h scenario_h_reordered scenario_v scenario_v_reordered).
  - distinct_rows.
  - distinct_rows.
  - unfold scenario_h, scenario_h_reordered. repeat perm_step.
  - unfold scenario_v, scenario_v_reordered. repeat perm_step.
Defined.

(** ** Columns looked up by name *)

Lemma named_insert_project (kl ki ke : nat) (rec : list Q) (recs : list (list Q)) :
  map (fun r => mkRow (Named.value_at kl r) (Named.value_at ki r) (Named.value_at ke r))
      (Named.insert_by kl rec recs)
  = insert_by_lat
      (mkRow (Named.value_at kl rec) (Named.value_at ki rec) (Named.value_at ke rec))
      (map (fun r => mkRow (Named.value_at kl r) (Named.value_at ki r) (Named.value_at ke r))
           recs).
Proof.
  induction recs as [|r' rest IH]; simpl; [reflexivity|].
  destruct (Qle_bool (Named.value_at kl rec) (Named.value_at kl r')); simpl.
  - reflexivity.
  - now rewrite IH.
Qed.

Lemma named_sort_project (kl ki ke : nat) (recs : list (list Q)) :
  map (fun r => mkRow (Named.value_at kl r) (Named.value_at ki r) (Named.value_at ke r))
      (fold_right (Named.insert_by kl) [] recs)
  = sort_values
      (map (fun r => mkRow (Named.value_at kl r) (Named.value_at ki r) (Named.value_at ke r))
           recs).
Proof.
  induction recs as [|rec rest IH]; simpl; [reflexivity|].
  rewrite named_insert_project, IH. reflexivity.
Qed.

Lemma named_select_project (f : list Q -> row) (p : row -> bool) (q : list Q -> bool)
    (recs : list (list Q)) :
  (forall r, q r = p (f r)) ->
  map f (Named.mask_select recs (map q recs)) = filter p (map f recs).
Proof.
  intro H. induction recs as [|rec rest IH]; simpl; [reflexivity|].
  rewrite <- H. destruct (q rec); simpl; now rewrite IH.
Qed.

Lemma zip_rows_maps {A : Type} (fl fi fe : A -> Q) (l : list A) :
  Named.zip_rows (map fl l) (map fi l) (map fe l)
  = map (fun x => mkRow (fl x) (fi x) (fe x)) l.
Proof.
  induction l as [|x l IH]; simpl; [reflexivity | now rewrite IH].
Qed.

Lemma combine_same_map {A B : Type} (f : A -> B) (l : list A) :
  combine (map f l) (map f l) = map (fun x => (f x, f x)) l.
Proof.
  induction l as [|x l IH]; simpl; [reflexivity | now rewrite IH].
Qed.

(** Lines 104-108 on a table that has the three columns. *)
Lemma named_add_bin_columns (a : Named.args) (cols : list string)
    (recs : list (list Q)) (edges : list Q) (kl ki ke : nat) :
  Named.index_of (Named.latField a) cols = Some kl ->
  Named.index_of (Named.incField a) cols = Some ki ->
  Named.index_of (Named.emisField a) cols = Some ke ->
  Named.add_bin_columns a (Named.mkDF cols recs) edges
  = Named.lift
      (add_bin_columns
         (map (fun r => mkRow (Named.value_at kl r) (Named.value_at ki r)
                              (Named.value_at ke r)) recs)
         edges).
Proof.
  intros Hl Hi He.
  unfold Named.add_bin_columns, Named.getitem, add_bin_columns.
  cbn [Named.columns Named.records]. rewrite Hl, Hi, He. cbn [Named.bind].
  rewrite map_map. cbn [inc].
  destruct (cut (map (Named.value_at ki) recs) edges) as [codes|e];
    cbn [Named.lift Named.bind Py.bind]; [|reflexivity].
  rewrite zip_rows_maps, !map_map. reflexivity.
Qed.

Lemma project_Some (a : Named.args) (df : Named.dataframe) (t : table) :
  Named.project a df = Some t ->
  exists kl ki ke,
    Named.index_of (Named.latField a) (Named.columns df) = Some kl /\
    Named.index_of (Named.incField a) (Named.columns df) = Some ki /\
    Named.index_of (Named.emisField a) (Named.columns df) = Some ke /\
    t = map (fun r => mkRow (Named.value_at kl r) (Named.value_at ki r)
                            (Named.value_at ke r)) (Named.records df).
Proof.
  unfold Named.project.
  destruct (Named.index_of (Named.latField a) (Named.columns df)) as [kl|]; [|discriminate].
  destruct (Named.index_of (Named.incField a) (Named.columns df)) as [ki|]; [|discriminate].
  destruct (Named.index_of (Named.emisField a) (Named.columns df)) as [ke|]; [|discriminate].
  intros [= <-]. exists kl, ki, ke. repeat split.
Qed.

(** The stage with named columns computes, on two tables that have the
    three fields, what the stage on rows computes from their projections. *)
Lemma named_stage_refines (a : Named.args) (Hdf Vdf : Named.dataframe)
    (th tv : table) :
  Named.project a Hdf = Some th ->
  Named.project a Vdf = Some tv ->
  Named.bin_and_aggregate a Hdf Vdf
  = Named.lift (bin_and_aggregate (Named.binSize a) th tv).
Proof.
  intros HH HV.
  apply project_Some in HH. destruct HH as [kl [ki [ke [Hl [Hi [He ->]]]]]].
  apply project_Some in HV. destruct HV as [kl' [ki' [ke' [Hl' [Hi' [He' ->]]]]]].
  destruct Hdf as [colsH recsH], Vdf as [colsV recsV].
  cbn [Named.columns Named.records] in *.
  unfold Named.bin_and_aggregate, Named.sort_values, Named.getitem.
  cbn [Named.columns Named.records]. rewrite Hl, Hl'. cbn [Named.bind Named.columns Named.records].
  rewrite Hi, Hi'. cbn [Named.bind].
  set (pH := fun r => mkRow (Named.value_at kl r) (Named.value_at ki r) (Named.value_at ke r)).
  set (pV := fun r => mkRow (Named.value_at kl' r) (Named.value_at ki' r) (Named.value_at ke' r)).
  set (sH := fold_right (Named.insert_by kl) [] recsH).
  set (sV := fold_right (Named.insert_by kl') [] recsV).
  assert (EH : sort_values (map pH recsH) = map pH sH)
    by (symmetry; apply named_sort_project).
  assert (EV : sort_values (map pV recsV) = map pV sV)
    by (symmetry; apply named_sort_project).
  assert (EincH : map inc (map pH sH) = map (Named.value_at ki) sH)
    by (rewrite map_map; reflexivity).
  unfold bin_and_aggregate. rewrite EH, EV, EincH.
  destruct (arange (series_min (map (Named.value_at ki) sH))
                   (nan_add (series_max (map (Named.value_at ki) sH)) overshoot)
                   (Named.binSize a)) as [edges|e];
    cbn [Named.lift Named.bind Py.bind]; [|reflexivity].
  unfold Named.select. cbn [Named.columns Named.records].
  rewrite combine_same_map, map_map. cbn [fst snd].
  set (minv := series_min (map (Named.value_at ki) sH)).
  set (maxv := series_max (map (Named.value_at ki) sH)).
  rewrite (named_add_bin_columns a colsH sH edges kl ki ke Hl Hi He).
  rewrite (named_add_bin_columns a colsV _ edges kl' ki' ke' Hl' Hi' He').
  fold pH pV.
  rewrite (named_select_project pV
             (fun r => ge_nan (inc r) minv && le_nan (inc r) maxv)
             (fun x => ge_nan (Named.value_at ki' x) minv && le_nan (Named.value_at ki' x) maxv)
             sV (fun r => eq_refl)).
  destruct (add_bin_columns (map pH sH) edges) as [fh|e];
    cbn [Named.lift Named.bind Py.bind]; [|reflexivity].
  destruct (add_bin_columns _ edges) as [fv|e];
    cbn [Named.lift Named.bind Py.bind]; reflexivity.
Qed.

(** The outcome of lines 104-108 on a table, by the columns it has. *)
Lemma named_add_bin_columns_outcome (a : Named.args) (cols : list string)
    (recs : list (list Q)) (edges : list Q) :
  Named.index_of (Named.latField a) cols <> None ->
  Named.index_of (Named.incField a) cols <> None ->
  match Named.add_bin_columns a (Named.mkDF cols recs) edges with
  | Named.Returned _ => Named.index_of (Named.emisField a) cols <> None
  | Named.KeyError n =>
      n = Named.emisField a /\ Named.index_of (Named.emisField a) cols = None
  | Named.Raised _ => True
  end.
Proof.
  intros Hl Hi.
  unfold Named.add_bin_columns, Named.getitem. cbn [Named.columns Named.records].
  destruct (Named.index_of (Named.incField a) cols) as [ki|]; [|contradiction].
  cbn [Named.bind].
  destruct (cut _ edges) as [codes|e]; cbn [Named.lift Named.bind]; [|exact I].
  destruct (Named.index_of (Named.emisField a) cols) as [ke|]; cbn [Named.bind].
  - destruct (Named.index_of (Named.latField a) cols) as [kl|]; [|contradiction].
    cbn [Named.bind]. discriminate.
  - split; reflexivity.
Qed.

(** X19: on two tables that both have the three named fields, the stage
    with columns looked up by name returns the same edges, rows, codes, means
    and standard deviations (or raises the same exception) as the stage on
    the rows made of those three columns. *)
Theorem X19_named_stage_agrees_with_stage_on_rows
    (a : Named.args) (Hdf Vdf : Named.dataframe) (th tv : table) :
  Named.fresh_fields a ->
  Named.project a Hdf = Some th ->
  Named.project a Vdf = Some tv ->
  Named.bin_and_aggregate a Hdf Vdf
  = Named.lift (bin_and_aggregate (Named.binSize a) th tv).
Proof.
  intros _. apply named_stage_refines.
Qed.

(** The outcome of the stage when a field is missing. *)
Lemma named_stage_missing (a : Named.args) (Hdf Vdf : Named.dataframe) :
  Named.project a Hdf = None \/ Named.project a Vdf = None ->
  match Named.bin_and_aggregate a Hdf Vdf with
  | Named.Returned _ => False
  | Named.KeyError n =>
      In n [Named.latField a; Named.incField a; Named.emisField a] /\
      (Named.index_of n (Named.columns Hdf) = None \/
       Named.index_of n (Named.columns Vdf) = None)
  | Named.Raised _ =>
      has_column Hdf (Named.latField a) /\ has_column Vdf (Named.latField a) /\
      has_column Hdf (Named.incField a)
  end.
Proof.
  intro Hmiss.
  destruct Hdf as [colsH recsH], Vdf as [colsV recsV].
  unfold Named.project in Hmiss. unfold has_column.
  cbn [Named.columns Named.records] in *.
  unfold Named.bin_and_aggregate, Named.sort_values, Named.getitem.
  cbn [Named.columns Named.records].
  destruct (Named.index_of (Named.latField a) colsH) as [kl|] eqn:Hl; cbn [Named.bind].
  2:{ split; [now left | now left]. }
  destruct (Named.index_of (Named.latField a) colsV) as [kl'|] eqn:Hl'; cbn [Named.bind].
  2:{ split; [now left | now right]. }
  cbn [Named.columns Named.records].
  destruct (Named.index_of (Named.incField a) colsH) as [ki|] eqn:Hi; cbn [Named.bind].
  2:{ split; [right; now left | now left]. }
  assert (Hhave : Some kl <> None /\ Some kl' <> None /\ Some ki <> None)
    by (repeat split; discriminate).
  set (sH := fold_right (Named.insert_by kl) [] recsH).
  set (sV := fold_right (Named.insert_by kl') [] recsV).
  set (xs := map (Named.value_at ki) sH).
  destruct (arange (series_min xs) (nan_add (series_max xs) overshoot) (Named.binSize a))
    as [edges|e]; cbn [Named.lift Named.bind]; [|exact Hhave].
  destruct (Named.index_of (Named.incField a) colsV) as [ki'|] eqn:Hi'; cbn [Named.bind].
  2:{ split; [right; now left | now right]. }
  unfold Named.select. cbn [Named.columns Named.records].
  assert (OH := named_add_bin_columns_outcome a colsH sH edges).
  rewrite Hl, Hi in OH. specialize (OH ltac:(discriminate) ltac:(discriminate)).
  destruct (Named.add_bin_columns a (Named.mkDF colsH sH) edges) as [fh|n|e];
    cbn [Named.bind].
  - match goal with
    | |- context [Named.add_bin_columns a (Named.mkDF colsV ?rs) edges] =>
        assert (OV := named_add_bin_columns_outcome a colsV rs edges);
        rewrite Hl', Hi' in OV;
        specialize (OV ltac:(discriminate) ltac:(discriminate));
        destruct (Named.add_bin_columns a (Named.mkDF colsV rs) edges) as [fv|n|e];
        cbn [Named.bind]
    end.
    + destruct (Named.index_of (Named.emisField a) colsH); [|contradiction].
      destruct (Named.index_of (Named.emisField a) colsV); [|contradiction].
      destruct Hmiss; discriminate.
    + destruct OV as [-> OV]. split; [right; right; now left | now right].
    + exact Hhave.
  - destruct OH as [-> OH]. split; [right; right; now left | now left].
  - exact Hhave.
Qed.

(** The outcome of the stage with named columns. *)
Lemma named_stage_outcome (a : Named.args) (Hdf Vdf : Named.dataframe) :
  match Named.bin_and_aggregate a Hdf Vdf with
  | Named.Returned out =>
      exists th tv,
        Named.project a Hdf = Some th /\ Named.project a Vdf = Some tv /\
        bin_and_aggregate (Named.binSize a) th tv = Ok out
  | Named.KeyError n =>
      In n [Named.latField a; Named.incField a; Named.emisField a] /\
      (Named.index_of n (Named.columns Hdf) = None \/
       Named.index_of n (Named.columns Vdf) = None)
  | Named.Raised _ =>
      has_column Hdf (Named.latField a) /\ has_column Vdf (Named.latField a) /\
      has_column Hdf (Named.incField a)
  end.
Proof.
  destruct (Named.project a Hdf) as [th|] eqn:PH.
  - destruct (Named.project a Vdf) as [tv|] eqn:PV.
    + rewrite (named_stage_refines a Hdf Vdf th tv PH PV).
      destruct (bin_and_aggregate (Named.binSize a) th tv) as [out|e] eqn:E;
        cbn [Named.lift].
      * exists th, tv. repeat split. exact E.
      * apply project_Some in PH, PV.
        destruct PH as [kl [ki [ke [Hl [Hi _]]]]], PV as [kl' [ki' [ke' [Hl' _]]]].
        unfold has_column. rewrite Hl, Hi, Hl'. repeat split; discriminate.
    + assert (H := named_stage_missing a Hdf Vdf (or_intror PV)).
      destruct (Named.bin_and_aggregate a Hdf Vdf); [contradiction | exact H | exact H].
  - assert (H := named_stage_missing a Hdf Vdf (or_introl PH)).
    destruct (Named.bin_and_aggregate a Hdf Vdf); [contradiction | exact H | exact H].
Qed.

(** X20: the stage with columns looked up by name returns a result only
    when both tables have the three named fields, and the result is then that
    of the stage on the rows made of those columns; a KeyError always names
    one of the three configured fields, and that field is missing from the H
    or the V table; any other exception comes from line 99 or later, so the
    latitude field of both tables and the incidence-angle field of the H
    table are there. *)
Theorem X20_named_stage_outcome
    (a : Named.args) (Hdf Vdf : Named.dataframe) :
  Named.fresh_fields a ->
  match Named.bin_and_aggregate a Hdf Vdf with
  | Named.Returned out =>
      exists th tv,
        Named.project a Hdf = Some th /\ Named.project a Vdf = Some tv /\
        bin_and_aggregate (Named.binSize a) th tv = Ok out
  | Named.KeyError n =>
      In n [Named.latField a; Named.incField a; Named.emisField a] /\
      (Named.index_of n (Named.columns Hdf) = None \/
       Named.index_of n (Named.columns Vdf) = None)
  | Named.Raised _ =>
      has_column Hdf (Named.latField a) /\ has_column Vdf (Named.latField a) /\
      has_column Hdf (Named.incField a)
  end.
Proof.
  intros _. apply named_stage_outcome.
Qed.

(** Which exception the stage with named columns raises first. *)
Lemma named_stage_first_error (a : Named.args) (Hdf Vdf : Named.dataframe) :
  (~ has_column Hdf (Named.latField a) ->
     Named.bin_and_aggregate a Hdf Vdf = Named.KeyError (Named.latField a)) /\
  (has_column Hdf (Named.latField a) -> ~ has_column Vdf (Named.latField a) ->
     Named.bin_and_aggregate a Hdf Vdf = Named.KeyError (Named.latField a)) /\
  (has_column Hdf (Named.latField a) -> has_column Vdf (Named.latField a) ->
   ~ has_column Hdf (Named.incField a) ->
     Named.bin_and_aggregate a Hdf Vdf = Named.KeyError (Named.incField a)) /\
  (has_column Hdf (Named.latField a) -> has_column Vdf (Named.latField a) ->
   has_column Hdf (Named.incField a) ->
   Named.records Hdf = [] ->
     Named.bin_and_aggregate a Hdf Vdf = Named.Raised ValueError).
Proof.
  destruct Hdf as [colsH recsH], Vdf as [colsV recsV].
  unfold has_column. cbn [Named.columns Named.records].
  unfold Named.bin_and_aggregate, Named.sort_values, Named.getitem.
  cbn [Named.columns Named.records].
  destruct (Named.index_of (Named.latField a) colsH) as [kl|] eqn:Hl; cbn [Named.bind].
  2:{ repeat split; intros; try reflexivity; exfalso; auto. }
  split; [intro H; exfalso; apply H; discriminate|].
  destruct (Named.index_of (Named.latField a) colsV) as [kl'|] eqn:Hl'; cbn [Named.bind].
  2:{ repeat split; intros; try reflexivity; exfalso; auto. }
  split; [intros _ H; exfalso; apply H; discriminate|].
  cbn [Named.columns Named.records].
  destruct (Named.index_of (Named.incField a) colsH) as [ki|] eqn:Hi; cbn [Named.bind].
  2:{ repeat split; intros; try reflexivity; exfalso; auto. }
  split; [intros _ _ H; exfalso; apply H; discriminate|].
  intros _ _ _ ->. reflexivity.
Qed.

(** X21: the stage with named columns reports what is wrong in the order of
    its statements: a latitude field missing from the H table, then from the
    V table (lines 93-94), then an incidence-angle field missing from the H
    table (line 97); and when those three columns are there and the H table
    has no rows it raises ValueError (line 99), whatever else is missing from
    either table. *)
Theorem X21_named_stage_first_error
    (a : Named.args) (Hdf Vdf : Named.dataframe) :
  (~ has_column Hdf (Named.latField a) ->
     Named.bin_and_aggregate a Hdf Vdf = Named.KeyError (Named.latField a)) /\
  (has_column Hdf (Named.latField a) -> ~ has_column Vdf (Named.latField a) ->
     Named.bin_and_aggregate a Hdf Vdf = Named.KeyError (Named.latField a)) /\
  (has_column Hdf (Named.latField a) -> has_column Vdf (Named.latField a) ->
   ~ has_column Hdf (Named.incField a) ->
     Named.bin_and_aggregate a Hdf Vdf = Named.KeyError (Named.incField a)) /\
  (has_column Hdf (Named.latField a) -> has_column Vdf (Named.latField a) ->
   has_column Hdf (Named.incField a) ->
   Named.records Hdf = [] ->
     Named.bin_and_aggregate a Hdf Vdf = Named.Raised ValueError).
Proof. exact (named_stage_first_error a Hdf Vdf). Qed.

(** X22: the outcome of the stage with named columns depends on the two
    tables only through their three named columns: other columns, and the
    order of the columns, do not matter. *)
Theorem X22_named_stage_reads_three_columns_only
    (a : Named.args) (Hdf Hdf' Vdf Vdf' : Named.dataframe) (th tv : table) :
  Named.fresh_fields a ->
  Named.project a Hdf = Some th -> Named.project a Hdf' = Some th ->
  Named.project a Vdf = Some tv -> Named.project a Vdf' = Some tv ->
  Named.bin_and_aggregate a Hdf Vdf = Named.bin_and_aggregate a Hdf' Vdf'.
Proof.
  intros _ H1 H2 H3 H4.
  rewrite (named_stage_refines a Hdf Vdf th tv H1 H3).
  rewrite (named_stage_refines a Hdf' Vdf' th tv H2 H4).
  reflexivity.
Qed.

(** ** Pipeline A: the columns of the scatter plot *)

(** X23: Pipeline A hands [ax.scatter] the emissivity column and the radius
    column of the loaded table, one value per row each and row by row from
    the same record; when a field is missing it raises KeyError, for the
    emissivity field before the radius field, and it raises nothing else. *)
Theorem X23_scatter_args_outcome
    (emisField prField : string) (data : Named.dataframe) :
  match Named.scatter_args emisField prField data with
  | Named.Returned (xs, ys) =>
      exists ke kp,
        Named.index_of emisField (Named.columns data) = Some ke /\
        Named.index_of prField (Named.columns data) = Some kp /\
        length xs = length (Named.records data) /\
        length ys = length (Named.records data) /\
        forall i rec, nth_error (Named.records data) i = Some rec ->
          nth_error xs i = Some (Named.value_at ke rec) /\
          nth_error ys i = Some (Named.value_at kp rec)
  | Named.KeyError n =>
      (n = emisField /\ ~ has_column data emisField) \/
      (n = prField /\ has_column data emisField /\ ~ has_column data prField)
  | Named.Raised _ => False
  end.
Proof.
  unfold Named.scatter_args, Named.getitem, has_column.
  destruct (Named.index_of emisField (Named.columns data)) as [ke|]; cbn [Named.bind].
  - destruct (Named.index_of prField (Named.columns data)) as [kp|]; cbn [Named.bind].
    + exists ke, kp. repeat split; try apply length_map.
      * rewrite nth_error_map, H. reflexivity.
      * rewrite nth_error_map, H. reflexivity.
    + right. repeat split; [discriminate | intro H; now apply H].
  - left. split; [reflexivity | intro H; now apply H].
Qed.

Import NamedExamples.

(** X19 at the scenario tables given with named columns. *)
Lemma X19_witness :
  Named.bin_and_aggregate scenario_args scenario_h_df scenario_v_df
  = Named.lift (bin_and_aggregate (Named.binSize scenario_args) scenario_h scenario_v).
Proof.
  apply (X19_named_stage_agrees_with_stage_on_rows
           scenario_args scenario_h_df scenario_v_df scenario_h scenario_v).
  - fresh_names.
  - reflexivity.
  - reflexivity.
Defined.

(** X20 at an H table without rows and a V table without the incidence
    angle. *)
Lemma X20_witness :
  match Named.bin_and_aggregate scenario_args empty_h_df lat_only_v_df with
  | Named.Returned out =>
      exists th tv,
        Named.project scenario_args empty_h_df = Some th /\
        Named.project scenario_args lat_only_v_df = Some tv /\
        bin_and_aggregate (Named.binSize scenario_args) th tv = Ok out
  | Named.KeyError n =>
      In n [Named.latField scenario_args; Named.incField scenario_args;
            Named.emisField scenario_args] /\
      (Named.index_of n (Named.columns empty_h_df) = None \/
       Named.index_of n (Named.columns lat_only_v_df) = None)
  | Named.Raised _ =>
      has_column empty_h_df (Named.latField scenario_args) /\
      has_column lat_only_v_df (Named.latField scenario_args) /\
      has_column empty_h_df (Named.incField scenario_args)
  end.
Proof.
  apply (X20_named_stage_outcome scenario_args empty_h_df lat_only_v_df).
  fresh_names.
Defined.

(** X21 at a table without the incidence angle given as the H table
    (KeyError), and at an H table without rows (ValueError, although the V
    table lacks the incidence angle and both tables lack the emissivity). *)
Lemma X21_witness :
  Named.bin_and_aggregate scenario_args lat_only_v_df scenario_v_df
  = Named.KeyError (Named.incField scenario_args) /\
  Named.bin_and_aggregate scenario_args empty_h_df lat_only_v_df
  = Named.Raised ValueError.
Proof.
  split.
  - apply (proj1 (proj2 (proj2
             (X21_named_stage_first_error scenario_args lat_only_v_df scenario_v_df)))).
    + discriminate.
    + discriminate.
    + intro H. apply H. reflexivity.
  - apply (proj2 (proj2 (proj2
             (X21_named_stage_first_error scenario_args empty_h_df lat_only_v_df)))).
    + discriminate.
    + discriminate.
    + discriminate.
    + reflexivity.
Defined.

(** X22 at the H table of the scenario with and without its fourth column,
    the columns in two orders. *)
Lemma X22_witness :
  Named.bin_and_aggregate scenario_args scenario_h_df scenario_v_df
  = Named.bin_and_aggregate scenario_args scenario_h_df' scenario_v_df.
Proof.
  apply (X22_named_stage_reads_three_columns_only
           scenario_args scenario_h_df scenario_h_df' scenario_v_df scenario_v_df
           scenario_h scenario_v).
  - fresh_names.
  - reflexivity.
  - reflexivity.
  - reflexivity.
  - reflexivity.
Defined.

(** ** What the V table cannot change *)

(** X26: the edges and the whole H table of the result (rows, codes, means,
    standard deviations) are the same whatever V table the stage is given:
    the V data never reach the H results. *)
Theorem X26_H_results_independent_of_V
    (binSize : Q) (h v v' : table) (out out' : binned) :
  bin_and_aggregate binSize h v = Ok out ->
  bin_and_aggregate binSize h v' = Ok out' ->
  bins out = bins out' /\ dfh out = dfh out'.
Proof.
  intros Hok Hok'.
  destruct (stage_Ok binSize h v out Hok)
    as [lo [hi [Hmin [Hmax [_ [Hb [Hr [_ [Hby _]]]]]]]]].
  destruct (stage_Ok binSize h v' out' Hok')
    as [lo' [hi' [Hmin' [Hmax' [_ [Hb' [Hr' [_ [Hby' _]]]]]]]]].
  rewrite Hmin in Hmin'. injection Hmin' as <-.
  rewrite Hmax in Hmax'. injection Hmax' as <-.
  assert (Eb : bins out = bins out') by congruence.
  split; [exact Eb|].
  destruct Hby as [HB [HM [HS [HI HL]]]], Hby' as [HB' [HM' [HS' [HI' HL']]]].
  rewrite <- Eb in HB'.
  destruct (dfh out) as [r1 b1 m1 s1 i1 l1], (dfh out') as [r2 b2 m2 s2 i2 l2].
  cbn [rows BIN MEAN_SURFACE_EMISSIVITY STD_SURFACE_EMISSIVITY
       MEAN_INCIDENCE_ANGLE MEAN_RAD_FOOTPRINT_LATITUDE] in *.
  subst. reflexivity.
Qed.

(** X26 at the scenario H table with two different V tables. *)
Lemma X26_witness :
  bins scenario_out = bins edge_out /\ dfh scenario_out = dfh edge_out.
Proof.
  apply (X26_H_results_independent_of_V 10 scenario_h scenario_v edge_v
           scenario_out edge_out).
  - reflexivity.
  - reflexivity.
Defined.
